(** * Shadowy auxiliary tools: balance reconstruction, coin selection, HTTP facade

    A shallow embedding of
      - [check_balance.py]            (module [CheckBalance]),
      - [balance_api.py]              (module [BalanceApi]),
      - [shadowy-python/shadowy_cli.py], class [ShadowyWASM]
                                      (module [ShadowyWASM]),
    and the properties of the specification checked against them.

    Conventions of the embedding.
      - Python [int] is [Z]; a Python [str] is a [string], except in
        [validate_address], which is stated over sequences of code points.
      - A JSON object read with [d.get(k, default)] is a record whose field
        is an [option]; [None] is the absent key.
      - The remote node and the WASM bridge are explicit arguments (a record
        of their answers); a function that talks to them takes that record,
        a pure function does not.
      - [print] is modelled through the exceptions that the evaluation of
        its argument raises; a display value ([x / 100000000]) is modelled
        through the condition under which its division raises. *)

From Stdlib Require Import String Ascii.
From Stdlib Require Import ZArith List Bool Lia Permutation.
From Stdlib Require Import Sorting.Sorted.
Import ListNotations.
Open Scope Z_scope.

(** ** Small Python helpers *)

(** [a == b] where [a] comes from [dict.get] (so may be [None]) and [b] is a
    [str]. *)
Definition get_eqb (a : option string) (b : string) : bool :=
  match a with
  | Some s => String.eqb s b
  | None => false
  end.

(** [range(lo, hi)] *)
Definition py_range (lo hi : Z) : list Z :=
  map (fun i => lo + Z.of_nat i) (seq 0 (Z.to_nat (hi - lo))).

(** [sum(...)] over integers *)
Definition sumZ (l : list Z) : Z := fold_right Z.add 0 l.

(** Python's [float] is the IEEE double. A magnitude rounds to a finite
    double when it is below [float_limit], the midpoint between the largest
    double, 2^1024 - 2^971, and 2^1024. *)
Definition float_limit : Z := 2 ^ 1024 - 2 ^ 970.

(** [a / b] on two [int]s, [b > 0]: the true division is correctly rounded
    and raises OverflowError when the quotient does not round to a finite
    double. *)
Definition true_division_raises (a b : Z) : bool :=
  float_limit * b <=? Z.abs a.

(** [a / 100000000.0], an [int] by a [float]: [a] is converted first, which
    raises OverflowError when [a] does not round to a finite double. *)
Definition float_raises (a : Z) : bool :=
  float_limit <=? Z.abs a.

(** ** What the remote node serves *)

Module Node.

(** An entry of [inner_tx['outputs']]. *)
Record output := mkOutput {
  out_address : option string;
  out_value : option Z
}.

Record inner_tx := mkInner {
  outputs : option (list output)
}.

(** A transport-encoded blob is represented by what
    [json.loads(base64.b64decode(blob))] makes of it; [None] is a blob on
    which either call raises. *)
Definition encoded (A : Type) : Type := option A.

Record signed_tx := mkSigned {
  algorithm : option string;
  signer_key : option string;
  transaction : option (encoded inner_tx)
}.

(** The answer to [GET /block?height=h], read up to
    [['result']['block']['data']['txs']]. *)
Inductive block_response :=
| Unavailable                                  (* the request, [resp.json()] or a key lookup raises *)
| Txs (txs : option (list (encoded signed_tx))). (* [None] is JSON [null] *)

Record node := mkNode {
  latest_block_height : option Z;   (* [None]: [GET /status] fails *)
  status_failure : string;          (* [str(e)] of that failure *)
  block : Z -> block_response
}.

(** The node of a chain of [N] blocks: the latest height is [N] and
    heights [1..N] answer with the entries of the list, in order. *)
Definition of_chain (chain : list block_response) : node :=
  {| latest_block_height := Some (Z.of_nat (length chain));
     status_failure := EmptyString;
     block := fun h => nth (Z.to_nat (h - 1)) chain Unavailable |}.

End Node.
Import Node.

(** ** The scanning loop: two counters and exceptions *)

Module Scan.

(** The two local variables of [calculate_balance]. *)
Record acc := mkAcc { balance : Z; mining_rewards : Z }.

Definition acc0 : acc := {| balance := 0; mining_rewards := 0 |}.

Inductive outcome (A : Type) :=
| Ret (a : A)
| Raise.
Arguments Ret {A} a.
Arguments Raise {A}.

(** A statement of the loop body: it updates the counters and either
    completes or raises; what was added before a raise stays added. *)
Definition M (A : Type) : Type := acc -> acc * outcome A.

Definition ret {A} (a : A) : M A := fun s => (s, Ret a).
Definition raise {A} : M A := fun s => (s, Raise).
Definition bind {A B} (m : M A) (k : A -> M B) : M B :=
  fun s => match m s with
           | (s', Ret a) => k a s'
           | (s', Raise) => (s', Raise)
           end.

Notation "x <- m ;; k" := (bind m (fun x => k))
  (at level 61, m at next level, right associativity).
Notation "m ;;; k" := (bind m (fun _ => k))
  (at level 61, right associativity).

(** [try: m  except Exception: continue] *)
Definition try_except (m : M unit) : M unit :=
  fun s => (fst (m s), Ret tt).

(** [for x in l: body(x)] *)
Fixpoint for_each {A} (body : A -> M unit) (l : list A) : M unit :=
  match l with
  | [] => ret tt
  | x :: rest => body x ;;; for_each body rest
  end.

(** A lookup or decode that raises when there is nothing to return. *)
Definition must {A} (o : option A) : M A :=
  match o with
  | Some a => ret a
  | None => raise
  end.

Definition run (m : M unit) : acc := fst (m acc0).

End Scan.
Import Scan.

(** ** check_balance.py *)

Module CheckBalance.

Definition get_latest_height (n : node) : option Z := latest_block_height n.

Definition get_block (n : node) (height : Z) : block_response := block n height.

Definition decode_transaction (tx_b64 : encoded signed_tx) : M signed_tx :=
  must tx_b64.

Definition decode_inner_transaction (inner_tx_b64 : encoded inner_tx) : M inner_tx :=
  must inner_tx_b64.

(** Lines 55-59: the body of the loop over the outputs. The [print] of
    line 59 formats [reward_amount/100000000], a true division that raises
    when the amount is too large for a float, after both counters were
    updated. *)
Definition credit (address : string) (o : output) : M unit :=
  fun s =>
    if get_eqb (out_address o) address then
      let reward_amount := match out_value o with Some v => v | None => 0 end in
      let s := {| balance := balance s + reward_amount;
                  mining_rewards := mining_rewards s + 1 |} in
      if true_division_raises reward_amount 100000000 then (s, Raise)
      else (s, Ret tt)
    else (s, Ret tt).

(** Lines 45-59: the body of the loop over the transactions of a block. *)
Definition scan_tx (address : string) (tx_b64 : encoded signed_tx) : M unit :=
  signed_tx <- decode_transaction tx_b64 ;;
  if get_eqb (algorithm signed_tx) "coinbase" && get_eqb (signer_key signed_tx) address then
    inner_b64 <- must (transaction signed_tx) ;;
    inner_tx <- decode_inner_transaction inner_b64 ;;
    for_each (credit address)
             (match outputs inner_tx with Some l => l | None => [] end)
  else ret tt.

(** Lines 37-63: one iteration of the loop over the heights. *)
Definition scan_height (n : node) (address : string) (height : Z) : M unit :=
  try_except
    (match get_block n height with
     | Unavailable => raise
     | Txs None => ret tt                       (* [if not txs: continue] *)
     | Txs (Some []) => ret tt
     | Txs (Some txs) => for_each (scan_tx address) txs
     end).

(** Lines 65-68: the prints after the loop, outside any [try]. Line 66
    formats [balance/100000000]; line 68 formats
    [balance/mining_rewards/100000000], only when [mining_rewards > 0]. Each
    true division of two [int]s raises when its quotient is too large for a
    float. [None] is that exception. *)
Definition report (s : acc) : option acc :=
  if true_division_raises (balance s) 100000000 then None
  else if (mining_rewards s >? 0) && true_division_raises (balance s) (mining_rewards s)
       then None
       else Some s.

(** [calculate_balance] returns [balance] and prints [mining_rewards]; the
    embedding returns both. [None] is an exception that nothing catches:
    that of a failed [get_latest_height], or that of a [print] after the
    loop. *)
Definition calculate_balance (n : node) (address : string) : option acc :=
  match get_latest_height n with
  | None => None
  | Some latest_height =>
      report (run (for_each (scan_height n address) (py_range 1 (latest_height + 1))))
  end.

End CheckBalance.

(** ** balance_api.py *)

Module BalanceApi.

(** [s.split(sep)] for a one-character separator. *)
Fixpoint split (sep : ascii) (s : string) : list string :=
  match s with
  | EmptyString => [EmptyString]
  | String c rest =>
      if Ascii.eqb c sep then EmptyString :: split sep rest
      else match split sep rest with
           | [] => [String c EmptyString]
           | p :: ps => String c p :: ps
           end
  end.

(** A header value is either the literal the code passes or one the
    library computes when the response is sent (date, server version,
    body length). *)
Inductive header_value :=
| Value (v : string)
| Dynamic.

Inductive body :=
| BalanceJson (address : string) (balance_satoshis transaction_count : Z)
| PlainText (text : string)
| ErrorPage (message : string)
| ErrorAfterHeaders (message : string).   (* what [send_error] writes, where the body belongs *)

Record response := mkResponse {
  status : Z;
  headers : list (string * header_value);
  content : body
}.

(** [BaseHTTPRequestHandler.send_response] of the Python standard library
    (not part of the repository): the status line and two headers. *)
Definition send_response (code : Z) : list (string * header_value) :=
  [("Server"%string, Dynamic); ("Date"%string, Dynamic)].

(** [BaseHTTPRequestHandler.send_error] of the Python standard library (not
    part of the repository): [send_response], then [Connection], the
    content type of the error page and its length. *)
Definition send_error (code : Z) (message : string) : response :=
  {| status := code;
     headers := send_response code ++
                [("Connection"%string, Value "close");
                 ("Content-Type"%string, Value "text/html;charset=utf-8");
                 ("Content-Length"%string, Dynamic)];
     content := ErrorPage message |}.

(** Lines 93-96. *)
Definition credit (address : string) (o : output) : M unit :=
  fun s =>
    if get_eqb (out_address o) address then
      ({| balance := balance s + match out_value o with Some v => v | None => 0 end;
          mining_rewards := mining_rewards s + 1 |}, Ret tt)
    else (s, Ret tt).

(** Lines 80-96. *)
Definition scan_tx (address : string) (tx_b64 : encoded signed_tx) : M unit :=
  signed_tx <- must tx_b64 ;;
  if get_eqb (algorithm signed_tx) "coinbase" && get_eqb (signer_key signed_tx) address then
    inner_b64 <- must (transaction signed_tx) ;;
    inner_tx <- must inner_b64 ;;
    for_each (credit address)
             (match outputs inner_tx with Some l => l | None => [] end)
  else ret tt.

(** Lines 74-100. There is no test of [txs] here: iterating over [None]
    raises, inside the [try]. *)
Definition scan_height (n : node) (address : string) (height : Z) : M unit :=
  try_except
    (match block n height with
     | Unavailable => raise
     | Txs None => raise
     | Txs (Some txs) => for_each (scan_tx address) txs
     end).

(** [calculate_balance]: [None] is the exception
    [Failed to calculate balance: ...], raised when the status request
    fails; its text ends with that of the failure, [status_failure n]. *)
Definition calculate_balance (n : node) (address : string) : option acc :=
  match latest_block_height n with
  | None => None
  | Some latest_height =>
      Some (run (for_each (scan_height n address) (py_range 1 (latest_height + 1))))
  end.

Definition send_404 : response :=
  {| status := 404;
     headers := send_response 404 ++ [("Content-Type"%string, Value "text/plain")];
     content := PlainText "Not Found" |}.

(** Lines 29-59. The status line 200 and the headers are sent before the
    body is built. Building it divides the balance by [100000000.0]; when
    that raises, the [except] calls [send_error] after the headers of the
    200 response: the client reads status 200 and, as the body, a second
    status line with the error page. *)
Definition handle_balance_request (n : node) (address : string) : response :=
  match calculate_balance n address with
  | Some balance_info =>
      {| status := 200;
         headers := send_response 200 ++
                    [("Content-Type"%string, Value "application/json");
                     ("Access-Control-Allow-Origin"%string, Value "*")];
         content :=
           if float_raises (balance balance_info) then
             ErrorAfterHeaders
               "Error calculating balance: int too large to convert to float"
           else BalanceJson address (balance balance_info)
                            (mining_rewards balance_info) |}
  | None =>
      send_error 500 ("Error calculating balance: Failed to calculate balance: "
                        ++ status_failure n)%string
  end.

Definition do_GET (n : node) (path : string) : response :=
  let parts := split "/" path in
  if String.prefix "/api/v1/address/" path then
    if (5 <=? Z.of_nat (length parts)) && get_eqb (nth_error parts 4) "balance" then
      match nth_error parts 3 with
      | Some address => handle_balance_request n address
      | None => send_404
      end
    else send_404
  else send_404.

(** Is the header [Access-Control-Allow-Origin: *] among the headers? *)
Definition allows_any_origin (r : response) : bool :=
  existsb (fun h => String.eqb (fst h) "Access-Control-Allow-Origin" &&
                    match snd h with
                    | Value v => String.eqb v "*"
                    | Dynamic => false
                    end)
          (headers r).

End BalanceApi.

(** ** shadowy_cli.py, class ShadowyWASM *)

Module ShadowyWASM.

(** *** Data *)

(** A spendable output as the bridge returns it; every field is read with
    [utxo.get(key, default)]. *)
Record utxo := mkUtxo {
  u_txid : option string;
  u_vout : option Z;
  u_value : option Z;
  u_script_pubkey : option string;
  u_address : option string;
  u_confirmations : option Z
}.

(** [utxo.get("value", 0)] *)
Definition value_of (u : utxo) : Z :=
  match u_value u with Some v => v | None => 0 end.

Definition total_of (utxos : list utxo) : Z := sumZ (map value_of utxos).

(** The value under the key ["utxos"] of a JSON object. *)
Inductive utxos_field :=
| Absent
| AList (l : list utxo)
| NotAList.

(** What [_call_wasm('get_utxos')] evaluates to. [_call_wasm] turns a
    transport failure and an HTTP status other than 200 into a dict with
    the key ["error"]. The entries of an array are taken to be JSON
    objects whose ["value"], when present, is an integer. *)
Inductive wasm_result :=
| ErrorDict (e : string)
| AnArray (l : list utxo)
| ADict (f : utxos_field)           (* an object without the key ["error"] *)
| Other                             (* neither array nor object, and [in] does not raise *)
| Raises.                           (* an exception other than RequestException *)

Record tx_input := mkInput {
  in_txid : string;
  in_vout : Z;
  in_script_sig : string;
  in_sequence : Z
}.

Record tx_output := mkTxOutput {
  o_value : Z;
  o_script_pubkey : string;
  o_address : string
}.

Record token_op := mkTokenOp {
  op_type : Z;
  op_token_id : string;
  op_from : string;
  op_to : string;
  op_amount : Z
}.

Record transaction_data := mkTx {
  tx_version : Z;
  tx_inputs : list tx_input;
  tx_outputs : list tx_output;
  tx_locktime : Z;
  tx_timestamp : string;
  tx_token_ops : option (list token_op)   (* the key is set only for a token send *)
}.

Inductive sign_answer :=
| SignError (e : string)
| Signed (txid signature raw_tx : string).

Inductive broadcast_answer :=
| BroadcastError (e : string)
| BroadcastOk.

(** The bridge (and the clock) as [send_transaction] sees them. *)
Record bridge := mkBridge {
  get_utxos : wasm_result;
  sign : transaction_data -> sign_answer;
  broadcast : string -> broadcast_answer;   (* by the txid of the signed transaction *)
  now : string
}.

(** The calls made to the bridge, in order. *)
Inductive call :=
| CallGetUtxos
| CallSign (tx : transaction_data)
| CallBroadcast (txid : string).

Record wallet := mkWallet { w_name : string; w_address : string }.

(** The attributes of [self] that the methods below read. [None] for the
    wallet is also the absent attribute. *)
Record t := mkState {
  current_client : option string;   (* the node URL *)
  current_wallet : option wallet
}.

(** The float argument [amount], through the two integers the code makes
    of it. *)
Record amount_arg := mkAmount {
  times_1e8 : Z;     (* [int(amount * 100000000)] *)
  truncated : Z      (* [int(amount)] *)
}.

(** What [int(x)] makes of a float: an integer, or an exception with its
    text (ValueError for nan, OverflowError for an infinity). *)
Inductive conversion :=
| Int (n : Z)
| CannotConvert (text : string).

(** The float argument [amount] in general, through its two conversions.
    [int(amount * 100000000)] raises also for a finite amount whose product
    is infinite. *)
Record amount_float := mkFloat {
  int_scaled : conversion;     (* [int(amount * 100000000)] *)
  int_whole : conversion       (* [int(amount)] *)
}.

(** An amount for which both conversions return. *)
Definition converted (a : amount_arg) : amount_float :=
  {| int_scaled := Int (times_1e8 a); int_whole := Int (truncated a) |}.

Coercion converted : amount_arg >-> amount_float.








Record utxos_result := mkUtxos {
  r_address : string;
  r_utxos : list utxo;
  r_count : Z;
  r_total_value : Z;
  r_source : string
}.

Inductive utxos_answer :=
| UtxosError (e : string)
| Utxos (r : utxos_result).

Inductive error :=
| NoClientConfigured
| NoWalletLoaded
| UtxoLookupFailed (e : string)
| NoSpendableUtxos
| InsufficientFunds (need have : Z)
| SigningFailed (e : string)
| TransactionFailed (text : string).    (* ["Transaction failed: " + text], line 505 *)

Inductive send_result :=
| Failed (e : error)                                   (* a dict with ["error"] and no ["txid"] *)
| Submitted (txid : string) (fee change : Z)           (* ["success": True] *)
| NotSubmitted (txid : string) (e : string).           (* ["success": False], with ["error": e] *)

(** *** get_address_utxos *)

Definition script_for (address : string) : string :=
  ("OP_DUP OP_HASH160 " ++ substring 1 40 address ++ " OP_EQUALVERIFY OP_CHECKSIG")%string.

Definition _create_mock_utxos (address : string) : list utxo :=
  [ {| u_txid := Some "a1b2c3d4e5f6789012345678901234567890abcdef1234567890abcdef123456"%string;
       u_vout := Some 0;
       u_value := Some 1000000000;
       u_script_pubkey := Some (script_for address);
       u_address := Some address;
       u_confirmations := Some 10 |};
    {| u_txid := Some "b2c3d4e5f6789012345678901234567890abcdef1234567890abcdef1234567a"%string;
       u_vout := Some 1;
       u_value := Some 500000000;
       u_script_pubkey := Some (script_for address);
       u_address := Some address;
       u_confirmations := Some 20 |} ].

(** Lines 514-548: the list bound to [utxos] when the [try] is left. At
    line 524 the name [list] is the module global, which line 809
    ([def list()], the command [wallet list]) has rebound to a click
    command: [isinstance(result, list)] raises TypeError for every answer
    that reaches it, inside the [try], and the [except] of line 546 binds
    the mock candidates. Lines 525-544 are never run. *)
Definition utxos_of (result : wasm_result) (address : string) : list utxo :=
  match result with
  | Raises => _create_mock_utxos address            (* line 548 *)
  | ErrorDict _ => _create_mock_utxos address       (* line 521 *)
  | AnArray _ | ADict _ | Other =>
      _create_mock_utxos address                    (* line 524 raises; line 548 *)
  end.

Definition get_address_utxos (self : t) (w : bridge) (address : string) : utxos_answer :=
  match current_client self with
  | None => UtxosError "No client configured"
  | Some _ =>
      let utxos := utxos_of (get_utxos w) address in
      Utxos {| r_address := address;
               r_utxos := utxos;
               r_count := Z.of_nat (length utxos);
               r_total_value := sumZ (map value_of utxos);
               r_source := "WASM-PQC" |}
  end.

(** *** sign_transaction *)

Inductive signed :=
| SignFailed (e : string)
| SignedTx (txid signature raw_tx from_address : string).

Definition sign_transaction (self : t) (w : bridge) (transaction_data : transaction_data)
  : signed * list call :=
  match current_wallet self with
  | None => (SignFailed "No wallet loaded", [])
  | Some wal =>
      match sign w transaction_data with
      | SignError e => (SignFailed e, [CallSign transaction_data])
      | Signed txid signature raw_tx =>
          (SignedTx txid signature raw_tx (w_address wal), [CallSign transaction_data])
      end
  end.

(** *** send_transaction *)

(** [not token_id] *)
Definition no_token (token_id : option string) : bool :=
  match token_id with
  | None => true
  | Some s => String.eqb s EmptyString
  end.

(** Line 372. *)
Definition estimated_fee : Z := 100000.

(** Line 380: [utxos.sort(key=lambda x: x.get("value", 0), reverse=True)].
    [list.sort] belongs to Python; it is stable, also with [reverse=True]:
    entries of equal value keep their order. Insertion of each entry
    before the first one that is not larger does the same. *)
Fixpoint insert_desc (u : utxo) (l : list utxo) : list utxo :=
  match l with
  | [] => [u]
  | v :: rest =>
      if value_of v <=? value_of u then u :: v :: rest
      else v :: insert_desc u rest
  end.

Definition sort_desc (utxos : list utxo) : list utxo :=
  fold_right insert_desc [] utxos.

(** Lines 382-386: the selection loop, from the values of
    [selected_utxos] and [total_selected] on entry. *)
Fixpoint select (total_needed : Z) (utxos selected_utxos : list utxo)
         (total_selected : Z) : list utxo * Z :=
  match utxos with
  | [] => (selected_utxos, total_selected)
  | utxo :: rest =>
      let selected_utxos := selected_utxos ++ [utxo] in
      let total_selected := total_selected + value_of utxo in
      if total_selected >=? total_needed then (selected_utxos, total_selected)
      else select total_needed rest selected_utxos total_selected
  end.

(** Lines 375-386. *)
Definition select_utxos (utxos : list utxo) (amount_satoshis : Z) : list utxo * Z :=
  select (amount_satoshis + estimated_fee) (sort_desc utxos) [] 0.

(** Lines 398-403. *)
Definition input_of (utxo : utxo) : tx_input :=
  {| in_txid := match u_txid utxo with Some i => i | None => EmptyString end;
     in_vout := match u_vout utxo with Some v => v | None => 0 end;
     in_script_sig := EmptyString;
     in_sequence := 4294967295 |}.

(** Lines 416-422: the change output, if any. *)
Definition change_outputs (from_address : string) (change : Z) : list tx_output :=
  if change >? 0 then
    [ {| o_value := change;
         o_script_pubkey := script_for from_address;
         o_address := from_address |} ]
  else [].

(** Lines 406-422. *)
Definition make_outputs (from_address to_address : string)
           (amount_satoshis total_selected : Z) : list tx_output :=
  [ {| o_value := amount_satoshis;
       o_script_pubkey := script_for to_address;
       o_address := to_address |} ]
  ++ change_outputs from_address (total_selected - amount_satoshis - estimated_fee).

(** Lines 425-433, from the value of [int(amount)]. *)
Definition token_ops_of (from_address to_address : string) (whole : Z)
           (token_id : option string) : list token_op :=
  match token_id with
  | Some id =>
      if String.eqb id EmptyString then []
      else [ {| op_type := 1; op_token_id := id; op_from := from_address;
                op_to := to_address; op_amount := whole |} ]
  | None => []
  end.

(** Lines 425-433, for an amount whose conversions return. *)
Definition make_token_ops (from_address to_address : string) (amount : amount_arg)
           (token_id : option string) : list token_op :=
  match token_id with
  | Some id =>
      if String.eqb id EmptyString then []
      else [ {| op_type := 1; op_token_id := id; op_from := from_address;
                op_to := to_address; op_amount := truncated amount |} ]
  | None => []
  end.

(** [get_address_utxos] together with the call it makes. *)
Definition fetch_utxos (self : t) (w : bridge) (address : string)
  : utxos_answer * list call :=
  (get_address_utxos self w address,
   match current_client self with
   | None => []
   | Some _ => [CallGetUtxos]
   end).

(** The result and the calls made to the bridge. The answers of the bridge
    are well typed (see [wasm_result] and [sign_answer]); the outer
    [except Exception] of line 504 is entered when line 369 raises, that is
    when the conversion of the amount does. In a token send the
    [int(amount)] of line 432 is the value that line 369 computed. *)
Definition send_transaction (self : t) (w : bridge) (to_address : string)
           (amount : amount_float) (token_id : option string)
  : send_result * list call :=
  match current_client self, current_wallet self with
  | None, _ => (Failed NoClientConfigured, [])
  | Some _, None => (Failed NoWalletLoaded, [])
  | Some _, Some wal =>
      let from_address := w_address wal in
      let (utxos_result, calls) := fetch_utxos self w from_address in
      match utxos_result with
      | UtxosError e => (Failed (UtxoLookupFailed e), calls)
      | Utxos r =>
          match r_utxos r with
          | [] => (Failed NoSpendableUtxos, calls)
          | _ :: _ =>
              match (if no_token token_id then int_scaled amount else int_whole amount) with
              | CannotConvert text => (Failed (TransactionFailed text), calls)
              | Int amount_satoshis =>
                  let total_needed := amount_satoshis + estimated_fee in
                  let (selected_utxos, total_selected) :=
                    select_utxos (r_utxos r) amount_satoshis in
                  if total_selected <? total_needed then
                    (Failed (InsufficientFunds total_needed total_selected), calls)
                  else
                    let inputs := map input_of selected_utxos in
                    let outputs :=
                      make_outputs from_address to_address amount_satoshis total_selected in
                    let change := total_selected - amount_satoshis - estimated_fee in
                    let token_ops :=
                      token_ops_of from_address to_address amount_satoshis token_id in
                    let transaction_data :=
                      {| tx_version := 1;
                         tx_inputs := inputs;
                         tx_outputs := outputs;
                         tx_locktime := 0;
                         tx_timestamp := now w;
                         tx_token_ops := match token_ops with
                                         | [] => None
                                         | _ :: _ => Some token_ops
                                         end |} in
                    let (signed_tx, calls') := sign_transaction self w transaction_data in
                    match signed_tx with
                    | SignFailed e => (Failed (SigningFailed e), calls ++ calls')
                    | SignedTx txid _ _ _ =>
                        match broadcast w txid with
                        | BroadcastOk =>
                            (Submitted txid estimated_fee (if change >? 0 then change else 0),
                             calls ++ calls' ++ [CallBroadcast txid])
                        | BroadcastError e =>
                            (NotSubmitted txid ("WASM broadcast error: " ++ e)%string,
                             calls ++ calls' ++ [CallBroadcast txid])
                        end
                    end
              end
          end
      end
  end.

(** *** validate_address *)

(** A Python [str] as its sequence of code points. *)
Definition pystr : Type := list N.

Definition code_S : N := 83.

Inductive validation :=
| Valid (address : pystr)        (* [{"valid": True, "address": address}] *)
| Invalid.                       (* [{"valid": False, "error": ...}] *)

Definition startswith_S (address : pystr) : bool :=
  match address with
  | c :: _ => N.eqb c code_S
  | [] => false
  end.

Definition validate_address (address : pystr) : validation :=
  if (Z.of_nat (length address) =? 51) && startswith_S address
  then Valid address
  else Invalid.

Definition valid (v : validation) : bool :=
  match v with Valid _ => true | Invalid => false end.

End ShadowyWASM.

(** ** The specification's own terms

    Definitions that follow the words of the specification, not the code:
    which transactions qualify, which outputs match, and the sum that a scan
    is compared with. *)

Module Truth.

(** "algorithm == coinbase and signer-key == target address" *)
Definition qualifies (address : string) (t : signed_tx) : bool :=
  get_eqb (algorithm t) "coinbase" && get_eqb (signer_key t) address.

(** "Output whose address matches" *)
Definition pays (address : string) (o : output) : bool :=
  get_eqb (out_address o) address.

Definition amount_of (o : output) : Z :=
  match out_value o with Some v => v | None => 0 end.

(** The outputs of a transaction; none when the inner payload is missing
    or does not decode. *)
Definition payload (t : signed_tx) : list output :=
  match transaction t with
  | Some (Some inner) => match outputs inner with Some l => l | None => [] end
  | _ => []
  end.

(** The transactions of a served block that decode. *)
Definition decodable (b : block_response) : list signed_tx :=
  match b with
  | Txs (Some txs) => flat_map (fun e => match e with Some t => [t] | None => [] end) txs
  | _ => []
  end.

Definition qualifying (address : string) (chain : list block_response) : list signed_tx :=
  filter (qualifies address) (flat_map decodable chain).

Definition matching_outputs (address : string) (chain : list block_response) : list output :=
  filter (pays address) (flat_map payload (qualifying address chain)).

(** The ground-truth sum: the values of the outputs to [address] in the
    qualifying transactions of the chain. *)
Definition ground_truth (address : string) (chain : list block_response) : Z :=
  sumZ (map amount_of (matching_outputs address chain)).

(** The number of qualifying transactions. *)
Definition qualifying_count (address : string) (chain : list block_response) : Z :=
  Z.of_nat (length (qualifying address chain)).

(** A served entry that the scan can read through: it decodes, and if it
    qualifies its inner payload is present and decodes too. *)
Definition tx_intact (address : string) (e : encoded signed_tx) : bool :=
  match e with
  | None => false
  | Some t =>
      if qualifies address t then
        match transaction t with
        | Some (Some _) => true
        | _ => false
        end
      else true
  end.

(** A block that is served and whose entries, if any, are all intact. *)
Definition block_intact (address : string) (b : block_response) : bool :=
  match b with
  | Unavailable => false
  | Txs (Some txs) => forallb (tx_intact address) txs
  | Txs None => true
  end.

Definition chain_intact (address : string) (chain : list block_response) : bool :=
  forallb (block_intact address) chain.

End Truth.
Import Truth.

(** ** Auxiliary definitions for the proofs *)

Section ScanTerms.

Variable address : string.

(** The counters after the matching outputs of [outs] were credited. *)
Definition credited (s : acc) (outs : list output) : acc :=
  {| balance := balance s + sumZ (map amount_of (filter (pays address) outs));
     mining_rewards := mining_rewards s + Z.of_nat (length (filter (pays address) outs)) |}.

(** The outputs that the scan of one served entry looks at. *)
Definition seen (e : encoded signed_tx) : list output :=
  match e with
  | Some t => if qualifies address t then payload t else []
  | None => []
  end.

(** One iteration of the loop over the heights in balance_api.py, as a
    function of what the node serves at that height. *)
Definition scan_block (b : block_response) : M unit :=
  try_except
    (match b with
     | Unavailable => raise
     | Txs None => raise
     | Txs (Some txs) => for_each (BalanceApi.scan_tx address) txs
     end).

(** The same for check_balance.py. *)
Definition check_block (b : block_response) : M unit :=
  try_except
    (match b with
     | Unavailable => raise
     | Txs None => ret tt
     | Txs (Some []) => ret tt
     | Txs (Some txs) => for_each (CheckBalance.scan_tx address) txs
     end).

(** The entries of a block that the loop gets through: those before the
    first one that does not decode. *)
Fixpoint read_until_failure (txs : list (encoded signed_tx)) : list (encoded signed_tx) :=
  match txs with
  | [] => []
  | e :: rest => if tx_intact address e then e :: read_until_failure rest else []
  end.

(** The entries from the first one that does not decode on. *)
Fixpoint from_failure (txs : list (encoded signed_tx)) : list (encoded signed_tx) :=
  match txs with
  | [] => []
  | e :: rest => if tx_intact address e then from_failure rest else e :: rest
  end.

(** The outputs that the scan of one height in balance_api.py looks at. *)
Definition block_seen (b : block_response) : list output :=
  match b with
  | Txs (Some txs) => flat_map seen (read_until_failure txs)
  | _ => []
  end.

(** The outputs of the qualifying transactions of a block that the scan
    does not get to. *)
Definition block_missed (b : block_response) : list output :=
  match b with
  | Txs (Some txs) => flat_map seen (from_failure txs)
  | _ => []
  end.

(** The outputs of the qualifying transactions that decode, whether the
    scan reaches them or not. *)
Definition block_all (b : block_response) : list output :=
  match b with
  | Txs (Some txs) => flat_map seen txs
  | _ => []
  end.

(** The matching outputs that the scan reaches, and their sum. *)
Definition reached_outputs (chain : list block_response) : list output :=
  filter (pays address) (flat_map block_seen chain).

Definition reached_truth (chain : list block_response) : Z :=
  sumZ (map amount_of (reached_outputs chain)).

(** The sum of the matching outputs that the scan does not reach. *)
Definition missed_truth (chain : list block_response) : Z :=
  sumZ (map amount_of (filter (pays address) (flat_map block_missed chain))).

(** The [print] of line 59 of check_balance.py raises on this output. *)
Definition print_raises (o : output) : bool :=
  pays address o && true_division_raises (amount_of o) 100000000.

(** The outputs of a list that check_balance.py gets through: up to the
    first one on which the [print] raises, that one included. *)
Fixpoint until_print_raises (outs : list output) : list output :=
  match outs with
  | [] => []
  | o :: rest => if print_raises o then [o] else o :: until_print_raises rest
  end.

Definition prints_all (outs : list output) : bool :=
  forallb (fun o => negb (print_raises o)) outs.

(** The outputs that check_balance.py looks at in the entries of a block:
    the block ends at the first entry that does not decode, and after the
    first output on which the [print] raises. *)
Fixpoint check_read (txs : list (encoded signed_tx)) : list output :=
  match txs with
  | [] => []
  | e :: rest =>
      if tx_intact address e then
        if prints_all (seen e) then seen e ++ check_read rest
        else until_print_raises (seen e)
      else []
  end.

Definition check_seen (b : block_response) : list output :=
  match b with
  | Txs (Some txs) => check_read txs
  | _ => []
  end.

(** Every amount that check_balance.py prints for the chain can be
    displayed: each matching output that the scan reaches, their total, and
    the average when there is one. *)
Definition prints_fit (chain : list block_response) : bool :=
  prints_all (flat_map block_seen chain) &&
  negb (true_division_raises (reached_truth chain) 100000000) &&
  negb ((Z.of_nat (length (reached_outputs chain)) >? 0) &&
        true_division_raises (reached_truth chain)
                             (Z.of_nat (length (reached_outputs chain)))).

(** The blocks that a node serves at the heights from 1 to [h]. *)
Definition served (n : node) (h : Z) : list block_response :=
  map (block n) (py_range 1 (h + 1)).

End ScanTerms.

Section SelectionTerms.

Import ShadowyWASM.

(** Sorted by value, largest first. *)
Definition descending (l : list utxo) : Prop :=
  StronglySorted (fun a b => value_of b <= value_of a) l.

(** The candidates worth [v], in the order of the list. *)
Definition worth (v : Z) (l : list utxo) : list utxo :=
  filter (fun u => value_of u =? v) l.

(** The transactions handed to the signer among the calls made. *)
Definition signed_transactions (calls : list call) : list transaction_data :=
  flat_map (fun c => match c with CallSign tx => [tx] | _ => [] end) calls.


(** [amount_satoshis] of line 369. *)
Definition amount_satoshis_of (amount : amount_arg) (token_id : option string) : Z :=
  if no_token token_id then times_1e8 amount else truncated amount.

(** The conversion of line 369, which may raise. *)
Definition satoshis_of (amount : amount_float) (token_id : option string) : conversion :=
  if no_token token_id then int_scaled amount else int_whole amount.

(** The record of lines 443-453, from the outcome of the selection. *)
Definition assembled (from_address to_address : string) (amount : amount_arg)
           (token_id : option string) (timestamp : string)
           (selected_utxos : list utxo) (total_selected : Z) : transaction_data :=
  {| tx_version := 1;
     tx_inputs := map input_of selected_utxos;
     tx_outputs := make_outputs from_address to_address
                                (amount_satoshis_of amount token_id) total_selected;
     tx_locktime := 0;
     tx_timestamp := timestamp;
     tx_token_ops := match make_token_ops from_address to_address amount token_id with
                     | [] => None
                     | op :: ops => Some (op :: ops)
                     end |}.

(** The same record, from the integer that line 369 made of the amount. *)
Definition assembled_from (from_address to_address : string) (amount_satoshis : Z)
           (token_id : option string) (timestamp : string)
           (selected_utxos : list utxo) (total_selected : Z) : transaction_data :=
  {| tx_version := 1;
     tx_inputs := map input_of selected_utxos;
     tx_outputs := make_outputs from_address to_address amount_satoshis total_selected;
     tx_locktime := 0;
     tx_timestamp := timestamp;
     tx_token_ops := match token_ops_of from_address to_address amount_satoshis token_id with
                     | [] => None
                     | op :: ops => Some (op :: ops)
                     end |}.

(** What [send_transaction] does from line 375 on, for the wallet address
    [from_address] and the integer [amount_satoshis]. *)
Definition funded_send (w : bridge) (from_address to_address : string)
           (amount_satoshis : Z) (token_id : option string) : send_result * list call :=
  let selection := select_utxos (utxos_of (get_utxos w) from_address) amount_satoshis in
  if snd selection <? amount_satoshis + estimated_fee then
    (Failed (InsufficientFunds (amount_satoshis + estimated_fee) (snd selection)),
     [CallGetUtxos])
  else
    let tx := assembled_from from_address to_address amount_satoshis token_id (now w)
                             (fst selection) (snd selection) in
    let change := snd selection - amount_satoshis - estimated_fee in
    match sign w tx with
    | SignError e => (Failed (SigningFailed e), [CallGetUtxos; CallSign tx])
    | Signed txid _ _ =>
        match broadcast w txid with
        | BroadcastOk =>
            (Submitted txid estimated_fee (if change >? 0 then change else 0),
             [CallGetUtxos; CallSign tx; CallBroadcast txid])
        | BroadcastError e =>
            (NotSubmitted txid ("WASM broadcast error: " ++ e)%string,
             [CallGetUtxos; CallSign tx; CallBroadcast txid])
        end
    end.

End SelectionTerms.

(** ** Fixtures for the examples *)

Module Fixture.

(** The address that check_balance.py queries. *)
Definition miner : string := "S427a724d41e3a5a03d1f83553134239813272bc2c4b2d50737".

Definition other : string := "S000000000000000000000000000000000000000000000000ff".

Definition reward (to : string) (v : Z) : output :=
  {| out_address := Some to; out_value := Some v |}.

(** A blob that decodes to a coinbase transaction signed by [signer]. *)
Definition coinbase (signer : string) (outs : list output) : encoded signed_tx :=
  Some {| algorithm := Some "coinbase"%string;
          signer_key := Some signer;
          transaction := Some (Some {| outputs := Some outs |}) |}.

(** A blob that decodes to a transaction with another algorithm tag. *)
Definition transfer (signer : string) (outs : list output) : encoded signed_tx :=
  Some {| algorithm := Some "ML-DSA-87"%string;
          signer_key := Some signer;
          transaction := Some (Some {| outputs := Some outs |}) |}.

(** A blob on which the decoder raises. *)
Definition corrupted : encoded signed_tx := None.

(** A node whose status request fails. *)
Definition down : node :=
  {| latest_block_height := None;
     status_failure := "Connection refused";
     block := fun _ => Unavailable |}.

(** [S], white space, accented and CJK letters, an emoji, then padding:
    51 code points. *)
Definition odd_address : ShadowyWASM.pystr :=
  (83 :: 32 :: 9 :: 10 :: 233 :: 20013 :: 128512 :: repeat 0 44)%N.

(** A spendable output worth [v]. *)
Definition coin (v : Z) : ShadowyWASM.utxo :=
  {| ShadowyWASM.u_txid := Some "c0ffee"%string;
     ShadowyWASM.u_vout := Some 0;
     ShadowyWASM.u_value := Some v;
     ShadowyWASM.u_script_pubkey := None;
     ShadowyWASM.u_address := Some miner;
     ShadowyWASM.u_confirmations := Some 6 |}.

(** A client is configured and the wallet of [miner] is loaded. *)
Definition ready : ShadowyWASM.t :=
  {| ShadowyWASM.current_client := Some "http://127.0.0.1:8080"%string;
     ShadowyWASM.current_wallet :=
       Some {| ShadowyWASM.w_name := "main"; ShadowyWASM.w_address := miner |} |}.

(** A bridge that answers [get_utxos] with [r], signs and broadcasts. *)
Definition bridge_serving (r : ShadowyWASM.wasm_result) : ShadowyWASM.bridge :=
  {| ShadowyWASM.get_utxos := r;
     ShadowyWASM.sign := fun _ => ShadowyWASM.Signed "txid" "signature" "raw";
     ShadowyWASM.broadcast := fun _ => ShadowyWASM.BroadcastOk;
     ShadowyWASM.now := "2025-01-01T00:00:00Z" |}.

End Fixture.
Import Fixture.

(** ** shadowy_cli.py: client and wallet of the session *)

Module Session.

Import ShadowyWASM.

(** What [_call_wasm] evaluates to for an endpoint whose answer is an
    object: a dict with the key ["error"] (also for a transport failure or
    an HTTP status other than 200), or the object of the bridge. *)
Inductive answer (A : Type) :=
| BridgeError (e : string)
| BridgeOk (a : A).
Arguments BridgeError {A} e.
Arguments BridgeOk {A} a.

(** The answer of [load_wallet]; [name] and [address] are read with an
    index, [version] with [get]. *)
Record wallet_json := mkWalletJson {
  wj_name : string;
  wj_address : string;
  wj_version : option Z
}.

Record session_bridge := mkSessionBridge {
  on_create_client : string -> answer unit;       (* by node URL *)
  on_test_connection : answer unit;
  on_load_wallet : string -> answer wallet_json   (* by wallet name *)
}.

(** The endpoints called, in order. *)
Inductive endpoint :=
| EpCreateClient
| EpTestConnection
| EpLoadWallet.

(** [ShadowyWASM()]: no client; the attribute [current_wallet] does not
    exist yet. *)
Definition init : t := {| current_client := None; current_wallet := None |}.

Inductive client_result :=
| ClientReady                      (* ["success": True] *)
| ClientFailed (e : string).       (* ["success": False] *)

(** Lines 120-141. *)
Definition create_client (self : t) (b : session_bridge) (url : string)
  : client_result * t * list endpoint :=
  let self := {| current_client := Some url; current_wallet := current_wallet self |} in
  match on_create_client b url with
  | BridgeError e => (ClientFailed e, self, [EpCreateClient])
  | BridgeOk _ =>
      match on_test_connection b with
      | BridgeOk _ => (ClientReady, self, [EpCreateClient; EpTestConnection])
      | BridgeError e =>
          (ClientFailed ("WASM connection test failed: " ++ e)%string, self,
           [EpCreateClient; EpTestConnection])
      end
  end.

(** Lines 143-152. *)
Definition test_connection (self : t) (b : session_bridge) : bool :=
  match current_client self with
  | None => false
  | Some _ =>
      match on_test_connection b with
      | BridgeOk _ => true
      | BridgeError _ => false
      end
  end.

Inductive load_result :=
| LoadFailed (e : string)
| Loaded (name address file : string) (version : Z).

(** Lines 261-280. *)
Definition load_wallet (self : t) (b : session_bridge) (name : string)
  : load_result * t :=
  match on_load_wallet b name with
  | BridgeError e => (LoadFailed e, self)
  | BridgeOk result =>
      (Loaded (wj_name result) (wj_address result)
              ("~/.shadowy/shadowy-wallet-" ++ name ++ ".json")%string
              (match wj_version result with Some v => v | None => 3 end),
       {| current_client := current_client self;
          current_wallet := Some {| w_name := wj_name result;
                                    w_address := wj_address result |} |})
  end.

Inductive address_result :=
| NoWalletLoaded                            (* [{"error": "No wallet loaded"}] *)
| WalletAddress (name address : string).

(** Lines 307-315. *)
Definition get_wallet_address (self : t) : address_result :=
  match current_wallet self with
  | None => NoWalletLoaded
  | Some wal => WalletAddress (w_name wal) (w_address wal)
  end.

(** *** The command [wallet send] (lines 979-1068) *)





(** *** The command [validate] (lines 1261-1302) *)

(** How the command ends: [sys.exit(1)], or normally after printing that the
    address is valid, or that it is invalid. *)
Inductive verdict :=
| ExitError
| SaysValid
| SaysInvalid.

Definition validate (loaded : bool) (b : session_bridge) (address : pystr)
           (node : string) : verdict :=
  if negb loaded then ExitError
  else
    let '(result, _, _) := create_client init b node in
    match result with
    | ClientFailed _ => ExitError
    | ClientReady =>
        let validate_result := validate_address address in
        match validate_result with
        | Invalid => ExitError       (* the key ["error"] is in the result *)
        | Valid _ =>
            let is_valid := valid validate_result in
            if is_valid then SaysValid else SaysInvalid
        end
    end.

End Session.

(** ** shadowy_cli.py: reset_sync *)

Module ResetSync.

Import ShadowyWASM.

Inductive http_method :=
| POST
| GET.

Record request := mkRequest {
  rq_method : http_method;
  rq_url : string
}.

Inductive reply :=
| Response (status_code : Z) (text : string)
| RequestException.

(** The node: its reply to a request, given the requests it received
    before (oldest first). *)
Definition server : Type := list request -> request -> reply.

(** The exchanges so far, oldest first. *)
Definition log : Type := list (request * reply).

Definition ask (node : server) (sent : log) (rq : request) : reply :=
  node (map fst sent) rq.

(** Lines 617-631. *)
Definition reset_endpoints : list string :=
  [ "/api/v1/reset"; "/api/v1/sync/reset"; "/api/v1/blockchain/reset";
    "/api/v1/debug/reset"; "/api/v1/admin/reset-sync"; "/api/v1/mempool/clear";
    "/api/v1/chain/restart"; "/api/v1/sync/restart"; "/api/v1/node/restart";
    "/reset"; "/debug/reset"; "/restart"; "/sync/reset" ]%string.

(** Lines 699-703. *)
Definition basic_endpoints : list string :=
  [ "/api/v1/status"; "/api/v1/health"; "/api/v1/version" ]%string.

(** An entry of [results] that can reach the caller. *)
Inductive attempt :=
| Refused (endpoint : string) (status : Z)        (* last status of the endpoint, not a success *)
| Unreachable (endpoint : string)                 (* a request raised *)
| Connectivity (endpoint : string) (status : Z) (ok : bool).

Inductive reset_result :=
| NoNode      (* ["No node URL specified and no client configured"] *)
| ResetDone (endpoint_used : string) (used : http_method) (status_code : Z)
            (response : option string)
| ResetFailed (node_url : string) (attempted_endpoints : list attempt).

(** [response.status_code in [200, 201, 202]] *)
Definition accepted (status_code : Z) : bool :=
  (status_code =? 200) || (status_code =? 201) || (status_code =? 202).

(** [response.text[:500] if response.text else None] *)
Definition excerpt (text : string) : option string :=
  match text with
  | EmptyString => None
  | _ => Some (substring 0 500 text)
  end.

(** Lines 635-696: the loop over the reset endpoints, from the exchanges
    and the [results] on entry. [Some] is the [return] inside the loop. The
    record that the code appends to [results] just before that [return] is
    dropped with the list. *)
Fixpoint try_reset (node : server) (node_url : string) (endpoints : list string)
         (sent : log) (results : list attempt)
  : option reset_result * log * list attempt :=
  match endpoints with
  | [] => (None, sent, results)
  | endpoint :: rest =>
      let post := {| rq_method := POST; rq_url := (node_url ++ endpoint)%string |} in
      match ask node sent post with
      | RequestException =>
          try_reset node node_url rest (sent ++ [(post, RequestException)])
                    (results ++ [Unreachable endpoint])
      | Response code text =>
          let sent := sent ++ [(post, Response code text)] in
          if accepted code then
            (Some (ResetDone endpoint POST code (excerpt text)), sent, results)
          else
            let get := {| rq_method := GET; rq_url := (node_url ++ endpoint)%string |} in
            match ask node sent get with
            | RequestException =>
                try_reset node node_url rest (sent ++ [(get, RequestException)])
                          (results ++ [Unreachable endpoint])
            | Response code' text' =>
                let sent := sent ++ [(get, Response code' text')] in
                if accepted code' then
                  (Some (ResetDone endpoint GET code' (excerpt text')), sent, results)
                else
                  try_reset node node_url rest sent (results ++ [Refused endpoint code'])
            end
      end
  end.

(** Lines 706-716: the connectivity checks. *)
Fixpoint check_basic (node : server) (node_url : string) (endpoints : list string)
         (sent : log) (results : list attempt) : log * list attempt :=
  match endpoints with
  | [] => (sent, results)
  | endpoint :: rest =>
      let get := {| rq_method := GET; rq_url := (node_url ++ endpoint)%string |} in
      match ask node sent get with
      | RequestException =>
          check_basic node node_url rest (sent ++ [(get, RequestException)]) results
      | Response code text =>
          check_basic node node_url rest (sent ++ [(get, Response code text)])
                      (results ++ [Connectivity endpoint code (code =? 200)])
      end
  end.

(** Lines 608-611: the URL that is reset, the argument or else the URL of
    the configured client. *)
Definition target (self : t) (node_url : option string) : option string :=
  match node_url with
  | Some (String c u) => Some (String c u)
  | _ => current_client self       (* [if not node_url] *)
  end.

(** [reset_sync]: the result and the exchanges with the node. *)
Definition reset_sync (self : t) (node : server) (node_url : option string)
  : reset_result * log :=
  match target self node_url with
  | None => (NoNode, [])
  | Some node_url =>
      match try_reset node node_url reset_endpoints [] [] with
      | (Some done, sent, _) => (done, sent)
      | (None, sent, results) =>
          let (sent, results) := check_basic node node_url basic_endpoints sent results in
          (ResetFailed node_url results, sent)
      end
  end.

(** *** Terms for the properties *)

Definition post (node_url endpoint : string) : request :=
  {| rq_method := POST; rq_url := (node_url ++ endpoint)%string |}.

Definition get (node_url endpoint : string) : request :=
  {| rq_method := GET; rq_url := (node_url ++ endpoint)%string |}.

(** [refusals node_url endpoints exchanges records]: the exchanges are those
    of endpoints that were all refused, in order, and the records are what
    [results] keeps of them. An endpoint is refused when its POST raises,
    or its POST is answered with a status that is not accepted and its GET
    then raises or is answered with such a status too. *)
Inductive refusals (node_url : string) : list string -> log -> list attempt -> Prop :=
| no_endpoint : refusals node_url [] [] []
| post_raised endpoint endpoints exchanges records :
    refusals node_url endpoints exchanges records ->
    refusals node_url (endpoint :: endpoints)
             ((post node_url endpoint, RequestException) :: exchanges)
             (Unreachable endpoint :: records)
| get_raised endpoint endpoints code text exchanges records :
    accepted code = false ->
    refusals node_url endpoints exchanges records ->
    refusals node_url (endpoint :: endpoints)
             ((post node_url endpoint, Response code text)
                :: (get node_url endpoint, RequestException) :: exchanges)
             (Unreachable endpoint :: records)
| both_refused endpoint endpoints code text code' text' exchanges records :
    accepted code = false ->
    accepted code' = false ->
    refusals node_url endpoints exchanges records ->
    refusals node_url (endpoint :: endpoints)
             ((post node_url endpoint, Response code text)
                :: (get node_url endpoint, Response code' text') :: exchanges)
             (Refused endpoint code' :: records).

(** In a log, every GET comes right after a POST of the same URL that was
    answered with a status that is not accepted. *)
Definition get_follows_post (exchanges : log) : Prop :=
  forall before rq rp after,
    exchanges = before ++ (rq, rp) :: after ->
    rq_method rq = GET ->
    exists earlier code text,
      before = earlier ++ [({| rq_method := POST; rq_url := rq_url rq |},
                            Response code text)] /\
      accepted code = false.

(** The record that a connectivity check leaves, if any. *)
Definition connectivity_of (endpoint : string) (rp : reply) : list attempt :=
  match rp with
  | Response code _ => [Connectivity endpoint code (code =? 200)]
  | RequestException => []
  end.

End ResetSync.

(** ** Further fixtures *)

Module Scenario.

(** A node that accepts a reset only as a GET of [/api/v1/sync/reset], with
    status 202, and answers 404 to everything else. *)
Definition picky_node : ResetSync.server :=
  fun _ rq =>
    match ResetSync.rq_method rq with
    | ResetSync.GET =>
        if String.eqb (ResetSync.rq_url rq) "http://node/api/v1/sync/reset"
        then ResetSync.Response 202 "restarting"
        else ResetSync.Response 404 EmptyString
    | ResetSync.POST => ResetSync.Response 404 EmptyString
    end.

(** A node that cannot be reached. *)
Definition dead_node : ResetSync.server := fun _ _ => ResetSync.RequestException.


(** A session bridge that refuses the client. *)
Definition refusing : Session.session_bridge :=
  {| Session.on_create_client := fun _ => Session.BridgeError "no route";
     Session.on_test_connection := Session.BridgeOk tt;
     Session.on_load_wallet := fun _ => Session.BridgeError "wallet not found" |}.


End Scenario.

(** ** Facts about the scanning loop *)

Section ScanFacts.

Variable address : string.

Lemma credited_nil s : credited address s [] = s.
Proof.
  destruct s as [b m]. unfold credited. cbn. f_equal; lia.
Qed.

Lemma credited_app s l1 l2 : credited address s (l1 ++ l2) = credited address (credited address s l1) l2.
Proof.
  unfold credited. cbn [balance mining_rewards].
  rewrite filter_app, map_app, length_app, Nat2Z.inj_add.
  f_equal; try lia.
  unfold sumZ. rewrite fold_right_app.
  generalize (map amount_of (filter (pays address) l2)) as r.
  induction (map amount_of (filter (pays address) l1)) as [|x xs IH]; intros r; cbn.
  - lia.
  - specialize (IH r). unfold sumZ in IH. lia.
Qed.

Lemma credited_cons s o outs :
  credited address s (o :: outs) =
  credited address
    (if pays address o
     then {| balance := balance s + amount_of o; mining_rewards := mining_rewards s + 1 |}
     else s) outs.
Proof.
  unfold credited. cbn [filter].
  destruct (pays address o); cbn [map length sumZ fold_right balance mining_rewards].
  - fold (sumZ (map amount_of (filter (pays address) outs))).
    rewrite Nat2Z.inj_succ. f_equal; lia.
  - reflexivity.
Qed.

(** *** balance_api.py *)

Lemma for_each_credit outs s :
  for_each (BalanceApi.credit address) outs s = (credited address s outs, Ret tt).
Proof.
  revert s. induction outs as [|o outs IH]; intros s.
  - cbn. now rewrite credited_nil.
  - rewrite credited_cons. cbn [for_each]. unfold bind, BalanceApi.credit.
    fold (pays address o). fold (amount_of o).
    destruct (pays address o); apply IH.
Qed.

Lemma scan_tx_intact e s :
  tx_intact address e = true ->
  BalanceApi.scan_tx address e s = (credited address s (seen address e), Ret tt).
Proof.
  destruct e as [t|]; cbn [tx_intact seen]; [|discriminate].
  unfold BalanceApi.scan_tx, payload.
  cbn [must]. unfold bind at 1, ret at 1.
  fold (qualifies address t).
  destruct (qualifies address t).
  - destruct (transaction t) as [[inner|]|]; try discriminate. intros _.
    cbn [must]. unfold bind, ret. apply for_each_credit.
  - intros _. unfold ret. now rewrite credited_nil.
Qed.

Lemma scan_tx_broken e s :
  tx_intact address e = false ->
  BalanceApi.scan_tx address e s = (s, Raise).
Proof.
  destruct e as [t|]; cbn [tx_intact]; [|reflexivity].
  unfold BalanceApi.scan_tx.
  cbn [must]. unfold bind at 1, ret at 1.
  fold (qualifies address t).
  destruct (qualifies address t); [|discriminate].
  destruct (transaction t) as [[inner|]|]; try discriminate; reflexivity.
Qed.

(** The loop over a block stops at the first entry that raises; what was
    credited before it stays. *)
Lemma scan_txs txs s :
  for_each (BalanceApi.scan_tx address) txs s
  = (credited address s (flat_map (seen address) (read_until_failure address txs)),
     if forallb (tx_intact address) txs then Ret tt else Raise).
Proof.
  revert s. induction txs as [|e txs IH]; intros s.
  - cbn. now rewrite credited_nil.
  - cbn [for_each read_until_failure forallb]. unfold bind.
    destruct (tx_intact address e) eqn:He.
    + rewrite (scan_tx_intact _ _ He), IH. cbn [flat_map andb].
      now rewrite credited_app.
    + rewrite (scan_tx_broken _ _ He). cbn. now rewrite credited_nil.
Qed.

Lemma read_all txs :
  forallb (tx_intact address) txs = true -> read_until_failure address txs = txs.
Proof.
  induction txs as [|e txs IH]; cbn; [reflexivity|].
  intros H. apply andb_true_iff in H as [He Htxs]. rewrite He. f_equal. auto.
Qed.

Lemma read_cut pre post :
  forallb (tx_intact address) pre = true ->
  read_until_failure address (pre ++ None :: post) = pre.
Proof.
  induction pre as [|e pre IH]; cbn; [reflexivity|].
  intros H. apply andb_true_iff in H as [He Hpre]. rewrite He. f_equal. auto.
Qed.

Lemma scan_height_block n h : BalanceApi.scan_height n address h = scan_block address (block n h).
Proof. reflexivity. Qed.

Lemma scan_block_seen b s :
  scan_block address b s = (credited address s (block_seen address b), Ret tt).
Proof.
  destruct b as [|[txs|]]; cbn [block_seen].
  - cbn. now rewrite credited_nil.
  - unfold scan_block, try_except. now rewrite scan_txs.
  - cbn. now rewrite credited_nil.
Qed.

Lemma scan_blocks chain s :
  for_each (scan_block address) chain s
  = (credited address s (flat_map (block_seen address) chain), Ret tt).
Proof.
  revert s. induction chain as [|b chain IH]; intros s.
  - cbn. now rewrite credited_nil.
  - cbn [for_each flat_map]. unfold bind. rewrite scan_block_seen, IH.
    now rewrite credited_app.
Qed.

(** Heights [1..N] of [of_chain] visit the blocks of the list in order. *)
Lemma for_each_heights (F : block_response -> M unit) skipped chain s :
  for_each (fun h => F (nth (Z.to_nat (h - 1)) (skipped ++ chain) Unavailable))
           (map (fun i => 1 + Z.of_nat i) (seq (length skipped) (length chain))) s
  = for_each F chain s.
Proof.
  revert skipped s. induction chain as [|b chain IH]; intros skipped s.
  - reflexivity.
  - cbn [length seq map for_each]. unfold bind.
    replace (Z.to_nat (1 + Z.of_nat (length skipped) - 1)) with (length skipped) by lia.
    rewrite nth_middle.
    destruct (F b s) as [s' [[]|]]; [|reflexivity].
    specialize (IH (skipped ++ [b]) s').
    rewrite <- app_assoc, length_app in IH. cbn [app length] in IH.
    rewrite Nat.add_1_r in IH. exact IH.
Qed.

(** The heights that the scan of [of_chain] walks are the blocks of the
    chain. *)
Lemma heights_of_chain (F : block_response -> M unit) chain s :
  for_each (fun h => F (block (of_chain chain) h))
           (py_range 1 (Z.of_nat (length chain) + 1)) s
  = for_each F chain s.
Proof.
  unfold py_range, of_chain. cbn [block].
  replace (Z.of_nat (length chain) + 1 - 1) with (Z.of_nat (length chain)) by lia.
  rewrite Nat2Z.id.
  change (@for_each Z _ ?l s)
    with (for_each (fun h => F (nth (Z.to_nat (h - 1)) ([] ++ chain) Unavailable)) l s).
  change 0%nat with (@length block_response []).
  apply for_each_heights.
Qed.

Lemma scan_of_chain chain :
  BalanceApi.calculate_balance (of_chain chain) address
  = Some (credited address acc0 (flat_map (block_seen address) chain)).
Proof.
  unfold BalanceApi.calculate_balance.
  change (latest_block_height (of_chain chain)) with (Some (Z.of_nat (length chain))).
  f_equal. unfold run.
  change (for_each (BalanceApi.scan_height (of_chain chain) address))
    with (for_each (fun h => scan_block address (block (of_chain chain) h))).
  now rewrite heights_of_chain, scan_blocks.
Qed.

(** *** check_balance.py *)

Lemma check_for_each_credit outs s :
  for_each (CheckBalance.credit address) outs s
  = (credited address s (until_print_raises address outs),
     if prints_all address outs then Ret tt else Raise).
Proof.
  revert s. induction outs as [|o outs IH]; intros s.
  - cbn. now rewrite credited_nil.
  - cbn [for_each until_print_raises prints_all forallb]. unfold bind, CheckBalance.credit.
    unfold print_raises. fold (pays address o). fold (amount_of o).
    destruct (pays address o) eqn:Hpays; cbn [andb].
    + destruct (true_division_raises (amount_of o) 100000000); cbn [negb andb].
      * rewrite credited_cons, Hpays. now rewrite credited_nil.
      * rewrite credited_cons, Hpays. apply IH.
    + cbn [negb andb]. rewrite credited_cons, Hpays. apply IH.
Qed.

Lemma check_scan_tx_intact e s :
  tx_intact address e = true ->
  CheckBalance.scan_tx address e s
  = (credited address s (until_print_raises address (seen address e)),
     if prints_all address (seen address e) then Ret tt else Raise).
Proof.
  destruct e as [t|]; cbn [tx_intact seen]; [|discriminate].
  unfold CheckBalance.scan_tx, CheckBalance.decode_transaction,
    CheckBalance.decode_inner_transaction, payload.
  cbn [must]. unfold bind at 1, ret at 1.
  fold (qualifies address t).
  destruct (qualifies address t).
  - destruct (transaction t) as [[inner|]|]; try discriminate. intros _.
    cbn [must]. unfold bind, ret. apply check_for_each_credit.
  - intros _. unfold ret. cbn. now rewrite credited_nil.
Qed.

Lemma check_scan_tx_broken e s :
  tx_intact address e = false ->
  CheckBalance.scan_tx address e s = (s, Raise).
Proof.
  destruct e as [t|]; cbn [tx_intact]; [|reflexivity].
  unfold CheckBalance.scan_tx, CheckBalance.decode_transaction,
    CheckBalance.decode_inner_transaction.
  cbn [must]. unfold bind at 1, ret at 1.
  fold (qualifies address t).
  destruct (qualifies address t); [|discriminate].
  destruct (transaction t) as [[inner|]|]; try discriminate; reflexivity.
Qed.

Lemma check_scan_txs txs s :
  fst (for_each (CheckBalance.scan_tx address) txs s)
  = credited address s (check_read address txs).
Proof.
  revert s. induction txs as [|e txs IH]; intros s.
  - cbn. now rewrite credited_nil.
  - cbn [for_each check_read]. unfold bind.
    destruct (tx_intact address e) eqn:He.
    + rewrite (check_scan_tx_intact _ _ He).
      destruct (prints_all address (seen address e)) eqn:Hprints.
      * rewrite IH, credited_app.
        f_equal. f_equal. clear -Hprints.
        induction (seen address e) as [|o outs IHo]; [reflexivity|].
        cbn [prints_all forallb until_print_raises] in *.
        apply andb_true_iff in Hprints as [Ho Houts].
        apply negb_true_iff in Ho. rewrite Ho. f_equal. now apply IHo.
      * reflexivity.
    + rewrite (check_scan_tx_broken _ _ He). cbn. now rewrite credited_nil.
Qed.

Lemma check_height_block n h :
  CheckBalance.scan_height n address h = check_block address (block n h).
Proof. reflexivity. Qed.

Lemma check_block_seen b s :
  check_block address b s = (credited address s (check_seen address b), Ret tt).
Proof.
  destruct b as [|[txs|]]; cbn [check_seen].
  - cbn. now rewrite credited_nil.
  - replace (check_block address (Txs (Some txs)) s)
      with (fst (for_each (CheckBalance.scan_tx address) txs s), @Ret unit tt)
      by (destruct txs; reflexivity).
    now rewrite check_scan_txs.
  - cbn. now rewrite credited_nil.
Qed.

Lemma check_blocks chain s :
  for_each (check_block address) chain s
  = (credited address s (flat_map (check_seen address) chain), Ret tt).
Proof.
  revert s. induction chain as [|b chain IH]; intros s.
  - cbn. now rewrite credited_nil.
  - cbn [for_each flat_map]. unfold bind. rewrite check_block_seen, IH.
    now rewrite credited_app.
Qed.

(** What check_balance.py computes on a chain: the counters over the
    outputs it looks at, if the prints after the loop do not raise. *)
Lemma check_of_chain chain :
  CheckBalance.calculate_balance (of_chain chain) address
  = CheckBalance.report (credited address acc0 (flat_map (check_seen address) chain)).
Proof.
  unfold CheckBalance.calculate_balance, CheckBalance.get_latest_height.
  change (latest_block_height (of_chain chain)) with (Some (Z.of_nat (length chain))).
  f_equal. unfold run.
  change (for_each (CheckBalance.scan_height (of_chain chain) address))
    with (for_each (fun h => check_block address (block (of_chain chain) h))).
  now rewrite heights_of_chain, check_blocks.
Qed.

Lemma report_some s s' : CheckBalance.report s = Some s' -> s' = s.
Proof.
  unfold CheckBalance.report.
  destruct (true_division_raises _ 100000000); [discriminate|].
  destruct (_ && _); [discriminate|]. congruence.
Qed.

Lemma prints_all_app l1 l2 :
  prints_all address (l1 ++ l2) = prints_all address l1 && prints_all address l2.
Proof. apply forallb_app. Qed.

Lemma until_print_raises_all outs :
  prints_all address outs = true -> until_print_raises address outs = outs.
Proof.
  induction outs as [|o outs IH]; [reflexivity|].
  cbn [prints_all forallb until_print_raises]. intros H.
  apply andb_true_iff in H as [Ho Houts]. apply negb_true_iff in Ho.
  rewrite Ho. f_equal. now apply IH.
Qed.

(** When every print of a block goes through, check_balance.py looks at
    the outputs that balance_api.py looks at. *)
Lemma check_seen_fit b :
  prints_all address (block_seen address b) = true ->
  check_seen address b = block_seen address b.
Proof.
  destruct b as [|[txs|]]; try reflexivity.
  cbn [check_seen block_seen].
  induction txs as [|e txs IH]; [reflexivity|].
  cbn [check_read read_until_failure].
  destruct (tx_intact address e); [|reflexivity].
  cbn [flat_map]. rewrite prints_all_app. intros H.
  apply andb_true_iff in H as [He Htxs]. rewrite He. f_equal. now apply IH.
Qed.

Lemma chain_check_fit chain :
  prints_all address (flat_map (block_seen address) chain) = true ->
  flat_map (check_seen address) chain = flat_map (block_seen address) chain.
Proof.
  induction chain as [|b chain IH]; [reflexivity|].
  cbn [flat_map]. rewrite prints_all_app. intros H.
  apply andb_true_iff in H as [Hb Hchain].
  now rewrite check_seen_fit, IH.
Qed.

Lemma credited_reached chain :
  credited address acc0 (flat_map (block_seen address) chain)
  = {| balance := reached_truth address chain;
       mining_rewards := Z.of_nat (length (reached_outputs address chain)) |}.
Proof. reflexivity. Qed.

(** On a chain whose amounts can all be displayed, the prints of
    check_balance.py do not raise and it computes what balance_api.py
    computes. *)
Lemma check_fit chain :
  prints_fit address chain = true ->
  CheckBalance.report (credited address acc0 (flat_map (check_seen address) chain))
  = Some (credited address acc0 (flat_map (block_seen address) chain)).
Proof.
  unfold prints_fit. intros H.
  apply andb_true_iff in H as [H Haverage]. apply andb_true_iff in H as [Hprints Htotal].
  rewrite (chain_check_fit _ Hprints), credited_reached.
  unfold CheckBalance.report. cbn [balance mining_rewards].
  apply negb_true_iff in Htotal, Haverage. now rewrite Htotal, Haverage.
Qed.

(** *** The sum of the specification *)

(** The sum of the specification, block by block. *)
Lemma matching_outputs_blocks chain :
  matching_outputs address chain = filter (pays address) (flat_map (block_all address) chain).
Proof.
  unfold matching_outputs, qualifying. f_equal.
  induction chain as [|b chain IH]; [reflexivity|].
  cbn [flat_map]. rewrite filter_app, flat_map_app, IH. f_equal.
  destruct b as [|[txs|]]; try reflexivity.
  cbn [decodable block_all].
  induction txs as [|[t|] txs IHt]; cbn [flat_map app]; auto.
  cbn [filter seen]. destruct (qualifies address t); cbn [flat_map app]; now rewrite IHt.
Qed.

Lemma ground_truth_credited chain :
  ground_truth address chain
  = balance (credited address acc0 (flat_map (block_all address) chain)).
Proof.
  unfold ground_truth. rewrite matching_outputs_blocks. reflexivity.
Qed.

Lemma block_seen_intact b :
  block_intact address b = true -> block_seen address b = block_all address b.
Proof.
  destruct b as [|[txs|]]; try reflexivity.
  cbn. intros H. now rewrite read_all.
Qed.

Lemma chain_seen_intact chain :
  chain_intact address chain = true ->
  flat_map (block_seen address) chain = flat_map (block_all address) chain.
Proof.
  induction chain as [|b chain IH]; [reflexivity|].
  cbn. intros H. apply andb_true_iff in H as [Hb Hc].
  now rewrite block_seen_intact, IH.
Qed.

Lemma chain_seen_app c1 c2 :
  flat_map (block_seen address) (c1 ++ c2)
  = flat_map (block_seen address) c1 ++ flat_map (block_seen address) c2.
Proof. apply flat_map_app. Qed.

Lemma chain_check_app c1 c2 :
  flat_map (check_seen address) (c1 ++ c2)
  = flat_map (check_seen address) c1 ++ flat_map (check_seen address) c2.
Proof. apply flat_map_app. Qed.

Lemma sumZ_app l1 l2 : sumZ (l1 ++ l2) = sumZ l1 + sumZ l2.
Proof.
  induction l1 as [|x l1 IH]; cbn [app sumZ fold_right] in *; [reflexivity|].
  fold (sumZ (l1 ++ l2)). fold (sumZ l1). lia.
Qed.

(** The entries of a block are those that the scan gets through followed
    by those it does not get to. *)
Lemma read_and_missed txs :
  txs = read_until_failure address txs ++ from_failure address txs.
Proof.
  induction txs as [|e txs IH]; [reflexivity|].
  cbn [read_until_failure from_failure].
  destruct (tx_intact address e); [|reflexivity].
  cbn [app]. now rewrite <- IH.
Qed.

(** The ground-truth sum is what the scan reaches plus what it misses. *)
Lemma ground_truth_split chain :
  ground_truth address chain = reached_truth address chain + missed_truth address chain.
Proof.
  unfold ground_truth, reached_truth, reached_outputs, missed_truth.
  rewrite matching_outputs_blocks.
  induction chain as [|b chain IH]; [reflexivity|].
  cbn [flat_map]. rewrite !filter_app, !map_app, !sumZ_app, IH.
  enough (sumZ (map amount_of (filter (pays address) (block_all address b)))
          = sumZ (map amount_of (filter (pays address) (block_seen address b)))
            + sumZ (map amount_of (filter (pays address) (block_missed address b)))) by lia.
  destruct b as [|[txs|]]; try reflexivity.
  cbn [block_all block_seen block_missed].
  rewrite (read_and_missed txs) at 1.
  now rewrite flat_map_app, filter_app, map_app, sumZ_app.
Qed.

Lemma missed_nothing chain :
  chain_intact address chain = true -> missed_truth address chain = 0.
Proof.
  unfold missed_truth. induction chain as [|b chain IH]; [reflexivity|].
  cbn [chain_intact forallb flat_map]. intros H. apply andb_true_iff in H as [Hb Hc].
  rewrite filter_app, map_app, sumZ_app, (IH Hc).
  destruct b as [|[txs|]]; try reflexivity.
  cbn [block_missed]. cbn [block_intact] in Hb.
  replace (from_failure address txs) with (@nil (encoded signed_tx)); [reflexivity|].
  induction txs as [|e txs IHt]; [reflexivity|].
  cbn [forallb from_failure] in *. apply andb_true_iff in Hb as [He Htxs].
  rewrite He. now apply IHt.
Qed.

End ScanFacts.

(** ** Balance reconstruction: the properties of the specification *)

(** On every chain the reward counter is the number of matching outputs that
    the scan reaches, and the balance is their sum. *)
Lemma counters_of_scan address chain :
  BalanceApi.calculate_balance (of_chain chain) address
  = Some {| balance := reached_truth address chain;
            mining_rewards := Z.of_nat (length (reached_outputs address chain)) |}.
Proof.
  rewrite scan_of_chain. reflexivity.
Qed.

(** The same for check_balance.py, when every amount it prints can be
    displayed. *)
Lemma counters_of_check address chain :
  prints_fit address chain = true ->
  CheckBalance.calculate_balance (of_chain chain) address
  = Some {| balance := reached_truth address chain;
            mining_rewards := Z.of_nat (length (reached_outputs address chain)) |}.
Proof.
  intros Hfit. rewrite check_of_chain, (check_fit _ _ Hfit). reflexivity.
Qed.

(** An entry that does not decode ends the block for check_balance.py
    too. *)
Lemma check_seen_cut address pre e post :
  tx_intact address e = false ->
  check_seen address (Txs (Some (pre ++ e :: post))) = check_seen address (Txs (Some pre)).
Proof.
  intros He. cbn [check_seen].
  induction pre as [|x pre IH]; cbn [app check_read].
  - now rewrite He.
  - destruct (tx_intact address x); [|reflexivity].
    destruct (prints_all address (seen address x)); [|reflexivity].
    now rewrite IH.
Qed.

Lemma block_seen_cut address pre e post :
  tx_intact address e = false ->
  block_seen address (Txs (Some (pre ++ e :: post)))
  = block_seen address (Txs (Some pre)).
Proof.
  intros He. cbn [block_seen].
  induction pre as [|x pre IH]; cbn [app read_until_failure].
  - now rewrite He.
  - destruct (tx_intact address x); [|reflexivity].
    cbn [flat_map]. now rewrite IH.
Qed.

(** C1. The reward counter is incremented inside the loop over the outputs:
    a chain holding one qualifying transaction with two outputs to the target
    address has one qualifying transaction, and both copies of
    [calculate_balance] report a reward count of 2. *)
Theorem reward_count_is_per_output :
  qualifying_count miner
    [Txs (Some [coinbase miner [reward miner 5; reward miner 7]])] = 1 /\
  CheckBalance.calculate_balance
    (of_chain [Txs (Some [coinbase miner [reward miner 5; reward miner 7]])]) miner
  = Some {| balance := 12; mining_rewards := 2 |} /\
  BalanceApi.calculate_balance
    (of_chain [Txs (Some [coinbase miner [reward miner 5; reward miner 7]])]) miner
  = Some {| balance := 12; mining_rewards := 2 |}.
Proof.
  repeat split; vm_compute; reflexivity.
Qed.

(** C2, as stated, fails: a qualifying transaction that follows an
    undecodable entry in its block belongs to the ground-truth sum and is
    not scanned. *)
Lemma scan_misses_outputs_after_corrupted_entry :
  ground_truth miner [Txs (Some [corrupted; coinbase miner [reward miner 5]])] = 5 /\
  option_map balance
    (CheckBalance.calculate_balance
       (of_chain [Txs (Some [corrupted; coinbase miner [reward miner 5]])]) miner)
  <> Some (ground_truth miner [Txs (Some [corrupted; coinbase miner [reward miner 5]])]) /\
  option_map balance
    (BalanceApi.calculate_balance
       (of_chain [Txs (Some [corrupted; coinbase miner [reward miner 5]])]) miner)
  <> Some (ground_truth miner [Txs (Some [corrupted; coinbase miner [reward miner 5]])]).
Proof.
  repeat split; vm_compute; congruence.
Qed.

(** C2, amended. For every chain of N blocks, scanning heights 1..N yields
    a balance equal to the ground-truth sum (the values of the outputs to
    the target address in the transactions with algorithm coinbase and
    signer key the target address) less the values of those outputs that the
    scan does not reach: the ones in the entries of a block from the first
    entry that does not decode, or that qualifies without a decodable inner
    payload, on. When every block is served, every entry decodes and every
    qualifying transaction carries a decodable inner payload, nothing is
    missed and the balance is the ground-truth sum. The other transactions
    contribute nothing. For balance_api.py this holds on every chain; for
    check_balance.py it holds when every amount that it prints on the way
    (each reward reached, the total, the average) is small enough to be
    divided into a float, and otherwise one of its prints raises. *)
Theorem scan_matches_ground_truth address chain :
  option_map balance (BalanceApi.calculate_balance (of_chain chain) address)
  = Some (ground_truth address chain - missed_truth address chain) /\
  (prints_fit address chain = true ->
   option_map balance (CheckBalance.calculate_balance (of_chain chain) address)
   = Some (ground_truth address chain - missed_truth address chain)) /\
  (chain_intact address chain = true ->
   missed_truth address chain = 0 /\
   option_map balance (BalanceApi.calculate_balance (of_chain chain) address)
   = Some (ground_truth address chain) /\
   (prints_fit address chain = true ->
    option_map balance (CheckBalance.calculate_balance (of_chain chain) address)
    = Some (ground_truth address chain))).
Proof.
  assert (Hreached : ground_truth address chain - missed_truth address chain
                     = reached_truth address chain)
    by (rewrite ground_truth_split; lia).
  rewrite Hreached. split; [|split].
  - now rewrite counters_of_scan.
  - intros Hfit. now rewrite (counters_of_check _ _ Hfit).
  - intros Hintact. pose proof (missed_nothing _ _ Hintact) as Hmissed.
    rewrite Hmissed, Z.sub_0_r in Hreached. rewrite Hreached.
    split; [exact Hmissed|]. split.
    + now rewrite counters_of_scan.
    + intros Hfit. now rewrite (counters_of_check _ _ Hfit).
Qed.

Lemma scan_matches_ground_truth_witness :
  prints_fit miner
    [Txs (Some [coinbase miner [reward miner 5; reward other 2]]);
     Txs None;
     Txs (Some [transfer miner [reward miner 100]; coinbase other [reward miner 9];
                coinbase miner [reward miner 7]])] = true /\
  chain_intact miner
    [Txs (Some [coinbase miner [reward miner 5; reward other 2]]);
     Txs None;
     Txs (Some [transfer miner [reward miner 100]; coinbase other [reward miner 9];
                coinbase miner [reward miner 7]])] = true /\
  option_map balance
    (CheckBalance.calculate_balance
       (of_chain
          [Txs (Some [coinbase miner [reward miner 5; reward other 2]]);
           Txs None;
           Txs (Some [transfer miner [reward miner 100]; coinbase other [reward miner 9];
                      coinbase miner [reward miner 7]])]) miner)
  = Some 12.
Proof.
  split; [vm_compute; reflexivity|]. split; [reflexivity|].
  apply (proj2 (proj2 (proj2 (proj2
           (scan_matches_ground_truth miner
              [Txs (Some [coinbase miner [reward miner 5; reward other 2]]);
               Txs None;
               Txs (Some [transfer miner [reward miner 100]; coinbase other [reward miner 9];
                          coinbase miner [reward miner 7]])])) eq_refl))).
  vm_compute. reflexivity.
Defined.

(** C3, as stated, fails: the three valid transactions alone tally 18 in 3
    rewards; with the corrupted entry first in the same block, none of them
    is tallied. *)
Lemma corrupted_first_drops_the_block :
  CheckBalance.calculate_balance
    (of_chain [Txs (Some [coinbase miner [reward miner 5];
                          coinbase miner [reward miner 6];
                          coinbase miner [reward miner 7]])]) miner
  = Some {| balance := 18; mining_rewards := 3 |} /\
  CheckBalance.calculate_balance
    (of_chain [Txs (Some [corrupted; coinbase miner [reward miner 5];
                          coinbase miner [reward miner 6];
                          coinbase miner [reward miner 7]])]) miner
  = Some {| balance := 0; mining_rewards := 0 |} /\
  BalanceApi.calculate_balance
    (of_chain [Txs (Some [corrupted; coinbase miner [reward miner 5];
                          coinbase miner [reward miner 6];
                          coinbase miner [reward miner 7]])]) miner
  = Some {| balance := 0; mining_rewards := 0 |} /\
  option_map balance
    (BalanceApi.calculate_balance
       (of_chain [Txs (Some [corrupted; coinbase miner [reward miner 5];
                             coinbase miner [reward miner 6];
                             coinbase miner [reward miner 7]])]) miner)
  <> Some (ground_truth miner
             [Txs (Some [coinbase miner [reward miner 5];
                         coinbase miner [reward miner 6];
                         coinbase miner [reward miner 7]])]).
Proof.
  repeat split; vm_compute; congruence.
Qed.

(** C3, amended. In a block with well-formed transactions and one corrupted
    entry, the scan tallies exactly the transactions that precede the
    corrupted entry: the entry ends the scan of that block, so the
    transactions after it are not tallied, what was tallied before it is
    kept, and scanning continues with the next height. The chain scans as if
    the block ended just before the corrupted entry, in both programs; the
    balance of such a block is the ground-truth sum of the transactions
    before the corrupted entry, in balance_api.py always and in
    check_balance.py when the amounts it prints for them are small enough
    to be divided into a float. *)
Theorem corrupted_entry_ends_block address before after pre post :
  forallb (tx_intact address) pre = true ->
  CheckBalance.calculate_balance
    (of_chain (before ++ Txs (Some (pre ++ corrupted :: post)) :: after)) address
  = CheckBalance.calculate_balance (of_chain (before ++ Txs (Some pre) :: after)) address /\
  BalanceApi.calculate_balance
    (of_chain (before ++ Txs (Some (pre ++ corrupted :: post)) :: after)) address
  = BalanceApi.calculate_balance (of_chain (before ++ Txs (Some pre) :: after)) address /\
  option_map balance
    (BalanceApi.calculate_balance (of_chain [Txs (Some (pre ++ corrupted :: post))]) address)
  = Some (ground_truth address [Txs (Some pre)]) /\
  (prints_fit address [Txs (Some pre)] = true ->
   option_map balance
     (CheckBalance.calculate_balance (of_chain [Txs (Some (pre ++ corrupted :: post))]) address)
   = Some (ground_truth address [Txs (Some pre)])).
Proof.
  intros Hpre.
  assert (Hbroken : tx_intact address corrupted = false) by reflexivity.
  assert (Hcut : forall a b,
             flat_map (block_seen address) (a ++ Txs (Some (pre ++ corrupted :: post)) :: b)
             = flat_map (block_seen address) (a ++ Txs (Some pre) :: b)).
  { intros a b. rewrite !chain_seen_app. f_equal. cbn [flat_map].
    now rewrite (block_seen_cut _ _ _ _ Hbroken). }
  assert (Hcheck : forall a b,
             flat_map (check_seen address) (a ++ Txs (Some (pre ++ corrupted :: post)) :: b)
             = flat_map (check_seen address) (a ++ Txs (Some pre) :: b)).
  { intros a b. rewrite !chain_check_app. f_equal. cbn [flat_map].
    now rewrite (check_seen_cut _ _ _ _ Hbroken). }
  assert (Htruth : ground_truth address [Txs (Some pre)]
                   = reached_truth address [Txs (Some pre)]).
  { rewrite ground_truth_split, missed_nothing; [lia|].
    cbn [chain_intact forallb block_intact]. now rewrite Hpre. }
  pose proof (Hcut [] []) as Hone. pose proof (Hcheck [] []) as Hone'.
  cbn [app] in Hone, Hone'.
  split; [|split; [|split]].
  - now rewrite !check_of_chain, Hcheck.
  - now rewrite !scan_of_chain, Hcut.
  - rewrite scan_of_chain, Hone, Htruth. reflexivity.
  - intros Hfit. rewrite check_of_chain, Hone', Htruth.
    now rewrite (check_fit _ _ Hfit).
Qed.

Lemma corrupted_entry_ends_block_witness :
  forallb (tx_intact miner) [coinbase miner [reward miner 5]] = true /\
  prints_fit miner [Txs (Some [coinbase miner [reward miner 5]])] = true /\
  option_map balance
    (CheckBalance.calculate_balance
       (of_chain [Txs (Some ([coinbase miner [reward miner 5]] ++
                             corrupted :: [coinbase miner [reward miner 6];
                                           coinbase miner [reward miner 7]]))]) miner)
  = Some (ground_truth miner [Txs (Some [coinbase miner [reward miner 5]])]).
Proof.
  split; [reflexivity|]. split; [vm_compute; reflexivity|].
  apply (corrupted_entry_ends_block miner [] []
           [coinbase miner [reward miner 5]]
           [coinbase miner [reward miner 6]; coinbase miner [reward miner 7]]).
  - reflexivity.
  - vm_compute. reflexivity.
Defined.
(** ** Coin selection and assembly *)

Ltac conjuncts := repeat match goal with |- _ /\ _ => split end.

Section Selection.

Import ShadowyWASM.

Lemma total_of_cons u l : total_of (u :: l) = value_of u + total_of l.
Proof. reflexivity. Qed.

Lemma total_of_app l1 l2 : total_of (l1 ++ l2) = total_of l1 + total_of l2.
Proof.
  induction l1 as [|u l1 IH]; [reflexivity|].
  cbn [app]. rewrite !total_of_cons, IH. lia.
Qed.

Lemma insert_desc_perm u l : Permutation (insert_desc u l) (u :: l).
Proof.
  induction l as [|v l IH]; cbn [insert_desc]; [reflexivity|].
  destruct (value_of v <=? value_of u); [reflexivity|].
  rewrite IH. apply perm_swap.
Qed.

Lemma sort_desc_perm utxos : Permutation (sort_desc utxos) utxos.
Proof.
  induction utxos as [|u l IH]; cbn [sort_desc fold_right]; [reflexivity|].
  fold (sort_desc l). rewrite insert_desc_perm. now constructor.
Qed.

Lemma insert_desc_bounded (P : utxo -> Prop) u l :
  P u -> Forall P l -> Forall P (insert_desc u l).
Proof.
  intros Hu Hl. eapply Permutation_Forall.
  - symmetry. apply insert_desc_perm.
  - now constructor.
Qed.

Lemma insert_desc_sorted u l : descending l -> descending (insert_desc u l).
Proof.
  unfold descending. induction 1 as [|v l Hsorted IH Hall]; cbn [insert_desc].
  - constructor; constructor.
  - destruct (value_of v <=? value_of u) eqn:Hcmp.
    + apply Z.leb_le in Hcmp. constructor.
      * now constructor.
      * constructor; [exact Hcmp|].
        eapply Forall_impl; [|exact Hall]. cbn. intros; lia.
    + apply Z.leb_gt in Hcmp. constructor; [exact IH|].
      apply insert_desc_bounded; [lia|exact Hall].
Qed.

Lemma sort_desc_sorted utxos : descending (sort_desc utxos).
Proof.
  induction utxos as [|u l IH]; cbn [sort_desc fold_right].
  - constructor.
  - now apply insert_desc_sorted.
Qed.

Lemma insert_desc_worth v u l : worth v (insert_desc u l) = worth v (u :: l).
Proof.
  induction l as [|x l IH]; [reflexivity|].
  cbn [insert_desc]. destruct (value_of x <=? value_of u) eqn:Hcmp; [reflexivity|].
  apply Z.leb_gt in Hcmp. unfold worth in *. cbn [filter] in *. rewrite IH.
  destruct (value_of u =? v) eqn:Hu; [|reflexivity].
  apply Z.eqb_eq in Hu.
  assert (Hx : (value_of x =? v) = false) by (apply Z.eqb_neq; lia).
  now rewrite Hx.
Qed.

(** The sort is stable: candidates of equal value keep their order. *)
Lemma sort_desc_stable v utxos : worth v (sort_desc utxos) = worth v utxos.
Proof.
  induction utxos as [|u l IH]; [reflexivity|].
  cbn [sort_desc fold_right]. fold (sort_desc l). rewrite insert_desc_worth.
  unfold worth in *. cbn [filter]. now rewrite IH.
Qed.

Lemma total_of_perm l1 l2 : Permutation l1 l2 -> total_of l1 = total_of l2.
Proof.
  induction 1; rewrite ?total_of_cons in *; lia.
Qed.

(** The loop takes a prefix of the list it walks; no earlier stop was
    possible, and it stops before the end only on a sufficient sum. *)
Lemma select_prefix total_needed utxos selected total :
  exists taken rest,
    utxos = taken ++ rest /\
    select total_needed utxos selected total = (selected ++ taken, total + total_of taken) /\
    (forall p q, taken = p ++ q -> p <> [] -> q <> [] -> total + total_of p < total_needed) /\
    (rest <> [] -> total_needed <= total + total_of taken) /\
    (total_needed <= total + total_of taken \/ rest = []).
Proof.
  revert selected total. induction utxos as [|u l IH]; intros selected total.
  - exists [], []. cbn [select]. rewrite (app_nil_r selected). change (total_of []) with 0.
    rewrite Z.add_0_r. conjuncts.
    + reflexivity.
    + reflexivity.
    + intros p q Hpq Hp. destruct p; [congruence|discriminate].
    + congruence.
    + now right.
  - cbn [select]. destruct (total + value_of u >=? total_needed) eqn:Hstop.
    + exists [u], l. rewrite total_of_cons. change (total_of []) with 0.
      rewrite Z.add_0_r. apply Z.geb_le in Hstop. conjuncts.
      * reflexivity.
      * reflexivity.
      * intros p q Hpq Hp Hq. destruct p as [|x [|y p]]; try congruence.
        -- cbn in Hpq. destruct q; [congruence|discriminate].
        -- discriminate.
      * intros _. exact Hstop.
      * now left.
    + destruct (IH (selected ++ [u]) (total + value_of u))
        as (taken & rest & Hsplit & Hsel & Hearly & Hstopped & Hend).
      exists (u :: taken), rest. rewrite total_of_cons, Hsel, <- app_assoc.
      assert (Hlow : total + value_of u < total_needed).
      { rewrite Z.geb_leb in Hstop. apply Z.leb_gt in Hstop. lia. }
      conjuncts.
      * cbn [app]. now rewrite Hsplit.
      * cbn [app]. f_equal. lia.
      * intros p q Hpq Hp Hq. destruct p as [|x p]; [congruence|].
        cbn [app] in Hpq. injection Hpq as Hx Htaken. subst x. rewrite total_of_cons.
        destruct p as [|y p].
        -- change (total_of []) with 0. lia.
        -- assert (total + value_of u + total_of (y :: p) < total_needed)
             by (apply (Hearly (y :: p) q Htaken); [discriminate|exact Hq]).
           lia.
      * intros Hrest. specialize (Hstopped Hrest). lia.
      * destruct Hend as [Hend|Hend]; [left; lia|now right].
Qed.

(** Whatever the bridge answers, the candidates are the mock pair. *)
Lemma utxos_of_mock result address : utxos_of result address = _create_mock_utxos address.
Proof. now destruct result. Qed.

Lemma utxos_of_not_empty result address : utxos_of result address <> [].
Proof. rewrite utxos_of_mock. discriminate. Qed.


Lemma select_utxos_total utxos amount_satoshis :
  snd (select_utxos utxos amount_satoshis) = total_of (fst (select_utxos utxos amount_satoshis)).
Proof.
  unfold select_utxos.
  destruct (select_prefix (amount_satoshis + estimated_fee) (sort_desc utxos) [] 0)
    as (taken & rest & _ & Hsel & _).
  rewrite Hsel. cbn [fst snd app]. lia.
Qed.

(** What [send_transaction] does once a client is configured and a wallet
    loaded. *)
Lemma send_transaction_funded self w to_address amount token_id url wal :
  current_client self = Some url ->
  current_wallet self = Some wal ->
  send_transaction self w to_address amount token_id
  = match satoshis_of amount token_id with
    | CannotConvert text => (Failed (TransactionFailed text), [CallGetUtxos])
    | Int amount_satoshis =>
        funded_send w (w_address wal) to_address amount_satoshis token_id
    end.
Proof.
  intros Hclient Hwallet.
  unfold send_transaction, fetch_utxos, get_address_utxos, sign_transaction.
  rewrite Hclient, Hwallet. cbn [r_utxos].
  pose proof (utxos_of_not_empty (get_utxos w) (w_address wal)) as Hne.
  unfold funded_send.
  destruct (utxos_of (get_utxos w) (w_address wal)) as [|u utxos] eqn:Hutxos;
    [congruence|].
  fold (satoshis_of amount token_id).
  destruct (satoshis_of amount token_id) as [amount_satoshis|text]; [|reflexivity].
  cbv zeta.
  destruct (select_utxos (u :: utxos) amount_satoshis) as [selected total] eqn:Hsel.
  cbn [fst snd].
  destruct (total <? amount_satoshis + estimated_fee); [reflexivity|].
  unfold assembled_from.
  destruct (token_ops_of (w_address wal) to_address amount_satoshis token_id) as [|op ops];
    (destruct (sign w _) as [e|txid sg raw]; [reflexivity|];
     destruct (broadcast w txid); reflexivity).
Qed.

(** For an amount whose conversions return, both ways of writing the
    record agree. *)
Lemma assembled_converted from_address to_address (amount : amount_arg) token_id ts
      selected total :
  assembled_from from_address to_address (amount_satoshis_of amount token_id) token_id ts
                 selected total
  = assembled from_address to_address amount token_id ts selected total.
Proof.
  unfold assembled_from, assembled, token_ops_of, make_token_ops, amount_satoshis_of, no_token.
  destruct token_id as [id|]; [|reflexivity].
  destruct (String.eqb id EmptyString); reflexivity.
Qed.

Lemma send_transaction_ready self w to_address (amount : amount_arg) token_id url wal :
  current_client self = Some url ->
  current_wallet self = Some wal ->
  send_transaction self w to_address amount token_id
  = let utxos := utxos_of (get_utxos w) (w_address wal) in
    let amount_satoshis := amount_satoshis_of amount token_id in
    let selection := select_utxos utxos amount_satoshis in
    if snd selection <? amount_satoshis + estimated_fee then
      (Failed (InsufficientFunds (amount_satoshis + estimated_fee) (snd selection)),
       [CallGetUtxos])
    else
      let tx := assembled (w_address wal) to_address amount token_id (now w)
                          (fst selection) (snd selection) in
      let change := snd selection - amount_satoshis - estimated_fee in
      match sign w tx with
      | SignError e => (Failed (SigningFailed e), [CallGetUtxos; CallSign tx])
      | Signed txid _ _ =>
          match broadcast w txid with
          | BroadcastOk =>
              (Submitted txid estimated_fee (if change >? 0 then change else 0),
               [CallGetUtxos; CallSign tx; CallBroadcast txid])
          | BroadcastError e =>
              (NotSubmitted txid ("WASM broadcast error: " ++ e)%string,
               [CallGetUtxos; CallSign tx; CallBroadcast txid])
          end
      end.
Proof.
  intros Hclient Hwallet.
  rewrite (send_transaction_funded _ _ _ _ _ _ _ Hclient Hwallet).
  assert (Hamount : satoshis_of amount token_id = Int (amount_satoshis_of amount token_id))
    by (unfold satoshis_of, amount_satoshis_of; now destruct (no_token token_id)).
  rewrite Hamount.
  unfold funded_send. cbv zeta. now rewrite assembled_converted.
Qed.



End Selection.

Import ShadowyWASM.

(** C4. For every candidate list, the selection walks the candidates sorted
    by value, largest first (a rearrangement of the list in which candidates
    of equal value keep their order), takes them in that order and stops as
    soon as the sum taken reaches amount + fee, the fee being the constant
    100000: what is selected is a prefix of the sorted list, no shorter
    non-empty prefix reaches the sum, and the walk stops before the end only
    once the sum is reached. With candidates of 10 and 5 display units and an
    amount of 12, both are selected and the transaction carries a change
    output of 299900000 to the sender. *)
Theorem coin_selection_is_greedy_largest_first utxos amount_satoshis :
  estimated_fee = 100000 /\
  Permutation (sort_desc utxos) utxos /\
  descending (sort_desc utxos) /\
  (forall v, worth v (sort_desc utxos) = worth v utxos) /\
  (exists rest,
      sort_desc utxos = fst (select_utxos utxos amount_satoshis) ++ rest /\
      snd (select_utxos utxos amount_satoshis)
      = total_of (fst (select_utxos utxos amount_satoshis)) /\
      (forall p q,
          fst (select_utxos utxos amount_satoshis) = p ++ q -> p <> [] -> q <> [] ->
          total_of p < amount_satoshis + estimated_fee) /\
      (rest <> [] ->
       amount_satoshis + estimated_fee <= total_of (fst (select_utxos utxos amount_satoshis)))) /\
  select_utxos [coin 500000000; coin 1000000000] 1200000000
  = ([coin 1000000000; coin 500000000], 1500000000) /\
  map tx_outputs
      (signed_transactions
         (snd (send_transaction ready
                 (bridge_serving (AnArray [coin 1000000000; coin 500000000]))
                 other {| times_1e8 := 1200000000; truncated := 12 |} None)))
  = [[ {| o_value := 1200000000; o_script_pubkey := script_for other; o_address := other |};
       {| o_value := 299900000; o_script_pubkey := script_for miner; o_address := miner |} ]].
Proof.
  conjuncts.
  - reflexivity.
  - apply sort_desc_perm.
  - apply sort_desc_sorted.
  - intros v. apply sort_desc_stable.
  - unfold select_utxos.
    destruct (select_prefix (amount_satoshis + estimated_fee) (sort_desc utxos) [] 0)
      as (taken & rest & Hsplit & Hsel & Hearly & Hstopped & _).
    exists rest. rewrite Hsel. cbn [fst snd app]. conjuncts.
    + exact Hsplit.
    + lia.
    + intros p q Hpq Hp Hq. specialize (Hearly p q Hpq Hp Hq). lia.
    + intros Hrest. specialize (Hstopped Hrest). lia.
  - vm_compute. reflexivity.
  - vm_compute. reflexivity.
Qed.



(** C6. Whenever a transaction is assembled, the selection was completed:
    the inputs are the selected candidates, change is
    sum(selected) - amount - fee and is not negative, and the outputs are the
    recipient output followed by a change output of exactly that value to
    the sender's address when change is positive, the recipient output alone
    when change is 0. *)
Theorem change_output_iff_positive self w to_address (amount : amount_arg) token_id tx :
  In tx (signed_transactions (snd (send_transaction self w to_address amount token_id))) ->
  exists wal r,
    current_wallet self = Some wal /\
    get_address_utxos self w (w_address wal) = Utxos r /\
    let amount_satoshis := amount_satoshis_of amount token_id in
    let selected := fst (select_utxos (r_utxos r) amount_satoshis) in
    let change := total_of selected - amount_satoshis - estimated_fee in
    let recipient_output :=
      {| o_value := amount_satoshis; o_script_pubkey := script_for to_address;
         o_address := to_address |} in
    let change_output :=
      {| o_value := change; o_script_pubkey := script_for (w_address wal);
         o_address := w_address wal |} in
    tx_inputs tx = map input_of selected /\
    (0 < change /\ tx_outputs tx = [recipient_output; change_output] \/
     change = 0 /\ tx_outputs tx = [recipient_output]).
Proof.
  intros Hin.
  destruct (current_client self) as [url|] eqn:Hclient;
    [|unfold send_transaction in Hin; rewrite Hclient in Hin; contradiction].
  destruct (current_wallet self) as [wal|] eqn:Hwallet;
    [|unfold send_transaction in Hin; rewrite Hclient, Hwallet in Hin; contradiction].
  rewrite (send_transaction_ready _ _ _ _ _ _ _ Hclient Hwallet) in Hin. cbv zeta in Hin.
  exists wal. eexists. split; [reflexivity|].
  unfold get_address_utxos. rewrite Hclient. split; [reflexivity|]. cbn [r_utxos]. cbv zeta.
  set (utxos := utxos_of (get_utxos w) (w_address wal)) in *.
  set (amount_satoshis := amount_satoshis_of amount token_id) in *.
  rewrite <- select_utxos_total.
  destruct (snd (select_utxos utxos amount_satoshis) <? amount_satoshis + estimated_fee)
    eqn:Hshort; [contradiction|].
  apply Z.ltb_ge in Hshort.
  set (assembly := assembled _ _ _ _ _ _ _) in Hin.
  assert (Htx : tx = assembly).
  { destruct (sign w assembly) as [e|txid sg raw]; [|destruct (broadcast w txid)];
      cbn in Hin; intuition congruence. }
  subst tx. unfold assembly, assembled. cbn [tx_inputs tx_outputs].
  split; [reflexivity|].
  unfold make_outputs, change_outputs. fold amount_satoshis.
  destruct (snd (select_utxos utxos amount_satoshis) - amount_satoshis - estimated_fee >? 0)
    eqn:Hchange.
  - left. split; [|reflexivity]. rewrite Z.gtb_ltb in Hchange. now apply Z.ltb_lt in Hchange.
  - right. split; [|reflexivity]. rewrite Z.gtb_ltb in Hchange. apply Z.ltb_ge in Hchange. lia.
Qed.

Lemma change_output_iff_positive_witness :
  In (assembled miner other {| times_1e8 := 999900000; truncated := 9 |} None
                "2025-01-01T00:00:00Z" (firstn 1 (_create_mock_utxos miner)) 1000000000)
     (signed_transactions
        (snd (send_transaction ready (bridge_serving (AnArray [coin 300000; coin 200000]))
                other {| times_1e8 := 999900000; truncated := 9 |} None))) /\
  tx_outputs (assembled miner other {| times_1e8 := 999900000; truncated := 9 |} None
                        "2025-01-01T00:00:00Z" (firstn 1 (_create_mock_utxos miner))
                        1000000000)
  = [ {| o_value := 999900000; o_script_pubkey := script_for other; o_address := other |} ].
Proof.
  split; [left; reflexivity|].
  destruct (change_output_iff_positive ready
              (bridge_serving (AnArray [coin 300000; coin 200000])) other
              {| times_1e8 := 999900000; truncated := 9 |} None
              (assembled miner other {| times_1e8 := 999900000; truncated := 9 |} None
                         "2025-01-01T00:00:00Z" (firstn 1 (_create_mock_utxos miner))
                         1000000000)
              (or_introl eq_refl))
    as (wal & r & Hwal & Hr & _ & Hcases).
  injection Hwal as <-. injection Hr as <-.
  destruct Hcases as [[Hpos _]|[_ Hout]].
  - vm_compute in Hpos. discriminate Hpos.
  - exact Hout.
Defined.

(** C7. With a client configured, a candidate source that answers with an
    error, or with an empty list, does not surface as an error or an empty
    result: [get_address_utxos] returns the two mock candidates under the
    source tag of the bridge, and [send_transaction] signs and broadcasts a
    transaction that spends them. *)
Theorem mock_candidates_on_production_path url wal sgn bc ts address e :
  get_address_utxos {| current_client := Some url; current_wallet := wal |}
                    {| get_utxos := ErrorDict e; sign := sgn; broadcast := bc; now := ts |}
                    address
  = Utxos {| r_address := address; r_utxos := _create_mock_utxos address;
             r_count := 2; r_total_value := 1500000000; r_source := "WASM-PQC" |} /\
  get_address_utxos {| current_client := Some url; current_wallet := wal |}
                    {| get_utxos := AnArray []; sign := sgn; broadcast := bc; now := ts |}
                    address
  = Utxos {| r_address := address; r_utxos := _create_mock_utxos address;
             r_count := 2; r_total_value := 1500000000; r_source := "WASM-PQC" |} /\
  send_transaction ready (bridge_serving (AnArray [])) other
                   {| times_1e8 := 1200000000; truncated := 12 |} None
  = (Submitted "txid" 100000 299900000,
     [CallGetUtxos;
      CallSign (assembled miner other {| times_1e8 := 1200000000; truncated := 12 |} None
                          "2025-01-01T00:00:00Z" (_create_mock_utxos miner) 1500000000);
      CallBroadcast "txid"]).
Proof.
  conjuncts; reflexivity.
Qed.

(** C9. [validate_address] answers valid exactly for the strings of 51
    characters that start with S; the other 50 characters are not looked at,
    so white space and characters outside ASCII pass; every other string is
    invalid. The answer depends on the string alone. *)
Theorem validate_address_length_and_first_char :
  (forall address,
      valid (validate_address address) = true <->
      length address = 51%nat /\ exists rest, address = code_S :: rest) /\
  (forall rest, length rest = 50%nat ->
                validate_address (code_S :: rest) = Valid (code_S :: rest)) /\
  (forall address,
      length address <> 51%nat \/ hd_error address <> Some code_S ->
      validate_address address = Invalid) /\
  validate_address odd_address = Valid odd_address.
Proof.
  conjuncts.
  - intros address. unfold validate_address, startswith_S. split.
    + destruct (Z.of_nat (length address) =? 51) eqn:Hlen; [|discriminate].
      apply Z.eqb_eq in Hlen. destruct address as [|c rest]; [discriminate|].
      destruct (N.eqb c code_S) eqn:Hc; [|discriminate].
      apply N.eqb_eq in Hc. subst c. intros _. split; [lia|now exists rest].
    + intros [Hlen [rest ->]]. rewrite Hlen. reflexivity.
  - intros rest Hlen. unfold validate_address, startswith_S. cbn [length].
    rewrite Hlen. reflexivity.
  - intros address Hbad. unfold validate_address, startswith_S.
    destruct (Z.of_nat (length address) =? 51) eqn:Hlen; [|reflexivity].
    apply Z.eqb_eq in Hlen. destruct address as [|c rest]; [reflexivity|].
    destruct (N.eqb c code_S) eqn:Hc; [|reflexivity].
    apply N.eqb_eq in Hc. subst c. cbn [hd_error] in Hbad. destruct Hbad as [Hbad|Hbad].
    + exfalso. apply Hbad. lia.
    + congruence.
  - reflexivity.
Qed.

(** C10. Every result of [get_address_utxos] that carries candidates is
    consistent, whatever the candidate source answered: [count] is the
    number of entries of [utxos] and [total_value] the sum of their values,
    an absent value counting 0. The only other result is the error returned
    when no client is configured. *)
Theorem utxos_result_is_consistent self w address :
  match get_address_utxos self w address with
  | Utxos r =>
      r_count r = Z.of_nat (length (r_utxos r)) /\
      r_total_value r = sumZ (map (fun u => match u_value u with Some v => v | None => 0 end)
                                  (r_utxos r))
  | UtxosError _ => current_client self = None
  end.
Proof.
  unfold get_address_utxos. destruct (current_client self); cbn; auto.
Qed.

Import BalanceApi.

(** The header is on a response exactly when its status is 200. *)
Lemma cors_header_iff_200 n path :
  allows_any_origin (do_GET n path) = true <-> status (do_GET n path) = 200.
Proof.
  unfold do_GET.
  destruct (String.prefix _ path); [|now cbn].
  destruct (_ && _); [|now cbn].
  destruct (nth_error _ 3) as [address|]; [|now cbn].
  unfold handle_balance_request.
  destruct (calculate_balance n address); now cbn.
Qed.

(** C8. The header [Access-Control-Allow-Origin: *] is set on the 200
    response only: the 404 response to an unmatched path and the 500
    response to a failed scan are sent without it. *)
Theorem cors_header_missing_on_404_and_500 :
  (forall n,
      status (do_GET n "/favicon.ico") = 404 /\
      allows_any_origin (do_GET n "/favicon.ico") = false) /\
  status (do_GET down "/api/v1/address/balance") = 500 /\
  allows_any_origin (do_GET down "/api/v1/address/balance") = false /\
  status (do_GET (of_chain []) "/api/v1/address/balance") = 200 /\
  allows_any_origin (do_GET (of_chain []) "/api/v1/address/balance") = true.
Proof.
  conjuncts; try reflexivity.
  intros n. split; reflexivity.
Qed.

(** ** Further properties of the balance scan *)

Section ScanOnAnyNode.

Variable address : string.

Lemma for_each_map {A B} (g : A -> B) (F : B -> M unit) l s :
  for_each (fun x => F (g x)) l s = for_each F (map g l) s.
Proof.
  revert s. induction l as [|x l IH]; intros s; [reflexivity|].
  cbn [map for_each]. unfold bind. destruct (F (g x) s) as [s' [[]|]]; [apply IH|reflexivity].
Qed.

(** The counters that [calculate_balance] computes on any node: the outputs
    seen at the heights from 1 to the latest one. *)
Lemma scan_of_node n h :
  latest_block_height n = Some h ->
  BalanceApi.calculate_balance n address
  = Some (credited address acc0 (flat_map (block_seen address) (served n h))).
Proof.
  intros Hlatest. unfold BalanceApi.calculate_balance.
  rewrite Hlatest. f_equal. unfold run, served.
  change (for_each (BalanceApi.scan_height n address))
    with (for_each (fun k => scan_block address (block n k))).
  now rewrite for_each_map, scan_blocks.
Qed.

Lemma check_of_node n h :
  latest_block_height n = Some h ->
  CheckBalance.calculate_balance n address
  = CheckBalance.report
      (credited address acc0 (flat_map (check_seen address) (served n h))).
Proof.
  intros Hlatest.
  unfold CheckBalance.calculate_balance, CheckBalance.get_latest_height.
  rewrite Hlatest. f_equal. unfold run, served.
  change (for_each (CheckBalance.scan_height n address))
    with (for_each (fun k => check_block address (block n k))).
  now rewrite for_each_map, check_blocks.
Qed.

Lemma in_py_range k lo hi : In k (py_range lo hi) -> lo <= k < hi.
Proof.
  unfold py_range. rewrite in_map_iff. intros [i [<- Hi]].
  apply in_seq in Hi. lia.
Qed.

Lemma block_seen_skip pre t post :
  qualifies address t = false ->
  block_seen address (Txs (Some (pre ++ Some t :: post)))
  = block_seen address (Txs (Some (pre ++ post))).
Proof.
  intros Ht. cbn [block_seen].
  induction pre as [|e pre IH]; cbn [app read_until_failure].
  - cbn [tx_intact]. rewrite Ht. cbn [flat_map seen]. now rewrite Ht.
  - destruct (tx_intact address e); [|reflexivity].
    cbn [flat_map]. now rewrite IH.
Qed.

Lemma check_seen_skip pre t post :
  qualifies address t = false ->
  check_seen address (Txs (Some (pre ++ Some t :: post)))
  = check_seen address (Txs (Some (pre ++ post))).
Proof.
  intros Ht. cbn [check_seen].
  induction pre as [|e pre IH]; cbn [app check_read].
  - cbn [tx_intact seen]. rewrite Ht. reflexivity.
  - destruct (tx_intact address e); [|reflexivity].
    destruct (prints_all address (seen address e)); [|reflexivity].
    now rewrite IH.
Qed.

End ScanOnAnyNode.

(** X1. Scanning is additive over concatenation: the counters of a chain
    made of two parts are the sums of the counters of the parts. In
    balance_api.py this holds on every chain; in check_balance.py it holds
    whenever the three scans return, which a print that raises after the
    loop prevents. *)
Theorem scan_of_concatenation address c1 c2 :
  (exists s1 s2 s,
      BalanceApi.calculate_balance (of_chain c1) address = Some s1 /\
      BalanceApi.calculate_balance (of_chain c2) address = Some s2 /\
      BalanceApi.calculate_balance (of_chain (c1 ++ c2)) address = Some s /\
      balance s = balance s1 + balance s2 /\
      mining_rewards s = mining_rewards s1 + mining_rewards s2) /\
  (forall s1 s2 s,
      CheckBalance.calculate_balance (of_chain c1) address = Some s1 ->
      CheckBalance.calculate_balance (of_chain c2) address = Some s2 ->
      CheckBalance.calculate_balance (of_chain (c1 ++ c2)) address = Some s ->
      balance s = balance s1 + balance s2 /\
      mining_rewards s = mining_rewards s1 + mining_rewards s2).
Proof.
  split.
  - rewrite !scan_of_chain.
    do 3 eexists. conjuncts; try reflexivity.
    + rewrite chain_seen_app. unfold credited. cbn [balance acc0].
      rewrite filter_app, map_app, sumZ_app. lia.
    + rewrite chain_seen_app. unfold credited. cbn [mining_rewards acc0].
      rewrite filter_app, length_app. lia.
  - intros s1 s2 s. rewrite !check_of_chain. intros H1 H2 H.
    apply report_some in H1, H2, H. subst s1 s2 s.
    rewrite chain_check_app. unfold credited. cbn [balance mining_rewards acc0].
    rewrite filter_app, map_app, sumZ_app, length_app. lia.
Qed.

(** X2. A height that cannot be fetched, a block whose list of transactions
    is absent and a block with no transaction contribute nothing and do not
    stop the scan: the chain scans as it does without them. *)
Theorem empty_or_missing_block_is_skipped address before after :
  (CheckBalance.calculate_balance (of_chain (before ++ Unavailable :: after)) address
   = CheckBalance.calculate_balance (of_chain (before ++ after)) address /\
   BalanceApi.calculate_balance (of_chain (before ++ Unavailable :: after)) address
   = BalanceApi.calculate_balance (of_chain (before ++ after)) address) /\
  (CheckBalance.calculate_balance (of_chain (before ++ Txs None :: after)) address
   = CheckBalance.calculate_balance (of_chain (before ++ after)) address /\
   BalanceApi.calculate_balance (of_chain (before ++ Txs None :: after)) address
   = BalanceApi.calculate_balance (of_chain (before ++ after)) address) /\
  (CheckBalance.calculate_balance (of_chain (before ++ Txs (Some []) :: after)) address
   = CheckBalance.calculate_balance (of_chain (before ++ after)) address /\
   BalanceApi.calculate_balance (of_chain (before ++ Txs (Some []) :: after)) address
   = BalanceApi.calculate_balance (of_chain (before ++ after)) address).
Proof.
  rewrite !check_of_chain, !scan_of_chain, !chain_seen_app, !chain_check_app.
  cbn [flat_map block_seen read_until_failure check_seen check_read app].
  conjuncts; reflexivity.
Qed.

(** X3. The inner payload of a transaction that does not qualify is never
    read: such a transaction, even with a missing or undecodable payload,
    changes nothing, and the scan goes on with the entries after it. *)
Theorem non_qualifying_transaction_is_passed_over address before after pre post t :
  qualifies address t = false ->
  CheckBalance.calculate_balance
    (of_chain (before ++ Txs (Some (pre ++ Some t :: post)) :: after)) address
  = CheckBalance.calculate_balance
      (of_chain (before ++ Txs (Some (pre ++ post)) :: after)) address /\
  BalanceApi.calculate_balance
    (of_chain (before ++ Txs (Some (pre ++ Some t :: post)) :: after)) address
  = BalanceApi.calculate_balance
      (of_chain (before ++ Txs (Some (pre ++ post)) :: after)) address.
Proof.
  intros Ht.
  rewrite !check_of_chain, !scan_of_chain, !chain_seen_app, !chain_check_app.
  cbn [flat_map].
  rewrite (block_seen_skip _ _ _ _ Ht), (check_seen_skip _ _ _ _ Ht). split; reflexivity.
Qed.

Lemma non_qualifying_transaction_is_passed_over_witness :
  qualifies miner {| algorithm := Some "coinbase"%string; signer_key := Some other;
                     transaction := Some None |} = false /\
  CheckBalance.calculate_balance
    (of_chain ([] ++ Txs (Some ([coinbase miner [reward miner 5]] ++
                 Some {| algorithm := Some "coinbase"%string; signer_key := Some other;
                         transaction := Some None |}
                 :: [coinbase miner [reward miner 7]])) :: [])) miner
  = Some {| balance := 12; mining_rewards := 2 |}.
Proof.
  split; [reflexivity|].
  refine (eq_trans
            (proj1 (non_qualifying_transaction_is_passed_over miner [] []
                      [coinbase miner [reward miner 5]] [coinbase miner [reward miner 7]]
                      {| algorithm := Some "coinbase"%string; signer_key := Some other;
                         transaction := Some None |} eq_refl)) _).
  reflexivity.
Defined.

(** X4. A qualifying transaction whose inner payload is missing (the key
    [transaction] is read with an index) or does not decode ends the scan of
    its block, like an entry that does not decode at all: the block scans as
    if it ended just before that entry, whatever precedes it. *)
Theorem unreadable_entry_ends_block address before after pre e post :
  tx_intact address e = false ->
  CheckBalance.calculate_balance
    (of_chain (before ++ Txs (Some (pre ++ e :: post)) :: after)) address
  = CheckBalance.calculate_balance (of_chain (before ++ Txs (Some pre) :: after)) address /\
  BalanceApi.calculate_balance
    (of_chain (before ++ Txs (Some (pre ++ e :: post)) :: after)) address
  = BalanceApi.calculate_balance (of_chain (before ++ Txs (Some pre) :: after)) address.
Proof.
  intros He.
  rewrite !check_of_chain, !scan_of_chain, !chain_seen_app, !chain_check_app.
  cbn [flat_map].
  rewrite (block_seen_cut _ _ _ _ He), (check_seen_cut _ _ _ _ He). split; reflexivity.
Qed.

Lemma unreadable_entry_ends_block_witness :
  tx_intact miner (Some {| algorithm := Some "coinbase"%string; signer_key := Some miner;
                           transaction := None |}) = false /\
  CheckBalance.calculate_balance
    (of_chain ([] ++ Txs (Some ([coinbase miner [reward miner 5]] ++
                 Some {| algorithm := Some "coinbase"%string; signer_key := Some miner;
                         transaction := None |}
                 :: [coinbase miner [reward miner 7]])) :: [])) miner
  = Some {| balance := 5; mining_rewards := 1 |}.
Proof.
  split; [reflexivity|].
  refine (eq_trans
            (proj1 (unreadable_entry_ends_block miner [] []
                      [coinbase miner [reward miner 5]]
                      (Some {| algorithm := Some "coinbase"%string; signer_key := Some miner;
                               transaction := None |})
                      [coinbase miner [reward miner 7]] eq_refl)) _).
  reflexivity.
Defined.

(** X5. The copy of [calculate_balance] in balance_api.py and the one in
    check_balance.py fail together when the status request fails, and
    compute the same counters on every node whose amounts check_balance.py
    can print (each reward reached, the total and the average divide into
    a float), although only the second tests the list of transactions before
    walking it. They differ beyond that: on a reward of 10^320,
    check_balance.py raises where balance_api.py returns it; and a reward
    too large to print ends the block for check_balance.py only, so that
    on two blocks holding 10^320 and 5, then -10^320 and 6, it returns 0 in
    2 rewards where balance_api.py returns 11 in 4. *)
Theorem both_copies_agree :
  (forall n address,
      latest_block_height n = None ->
      CheckBalance.calculate_balance n address = None /\
      BalanceApi.calculate_balance n address = None) /\
  (forall n address h,
      latest_block_height n = Some h ->
      prints_fit address (served n h) = true ->
      CheckBalance.calculate_balance n address = BalanceApi.calculate_balance n address) /\
  (CheckBalance.calculate_balance
     (of_chain [Txs (Some [coinbase miner [reward miner (10 ^ 320)]])]) miner = None /\
   BalanceApi.calculate_balance
     (of_chain [Txs (Some [coinbase miner [reward miner (10 ^ 320)]])]) miner
   = Some {| balance := 10 ^ 320; mining_rewards := 1 |}) /\
  (CheckBalance.calculate_balance
     (of_chain [Txs (Some [coinbase miner [reward miner (10 ^ 320); reward miner 5]]);
                Txs (Some [coinbase miner [reward miner (- 10 ^ 320); reward miner 6]])])
     miner
   = Some {| balance := 0; mining_rewards := 2 |} /\
   BalanceApi.calculate_balance
     (of_chain [Txs (Some [coinbase miner [reward miner (10 ^ 320); reward miner 5]]);
                Txs (Some [coinbase miner [reward miner (- 10 ^ 320); reward miner 6]])])
     miner
   = Some {| balance := 11; mining_rewards := 4 |}).
Proof.
  conjuncts.
  - intros n address Hdown.
    unfold CheckBalance.calculate_balance, CheckBalance.get_latest_height,
      BalanceApi.calculate_balance.
    now rewrite Hdown.
  - intros n address h Hlatest Hfit.
    rewrite (check_of_node address n h Hlatest), (scan_of_node address n h Hlatest).
    apply check_fit, Hfit.
  - vm_compute. reflexivity.
  - vm_compute. reflexivity.
  - vm_compute. reflexivity.
  - vm_compute. reflexivity.
Qed.

Lemma both_copies_agree_witness :
  prints_fit miner
    (served (of_chain [Txs (Some [coinbase miner [reward miner 5; reward miner 7]])]) 1)
  = true /\
  CheckBalance.calculate_balance
    (of_chain [Txs (Some [coinbase miner [reward miner 5; reward miner 7]])]) miner
  = BalanceApi.calculate_balance
      (of_chain [Txs (Some [coinbase miner [reward miner 5; reward miner 7]])]) miner.
Proof.
  split; [vm_compute; reflexivity|].
  apply (proj1 (proj2 both_copies_agree)
           (of_chain [Txs (Some [coinbase miner [reward miner 5; reward miner 7]])])
           miner 1).
  - reflexivity.
  - vm_compute. reflexivity.
Defined.

(** X6. Whatever the node serves, the reward counter is not negative, and a
    balance other than 0 comes with at least one reward: the average printed
    by check_balance.py is computed whenever there is something to
    average. *)
Theorem no_balance_without_reward n address s :
  CheckBalance.calculate_balance n address = Some s ->
  0 <= mining_rewards s /\ (mining_rewards s = 0 -> balance s = 0).
Proof.
  intros Hs.
  destruct (latest_block_height n) as [h|] eqn:Hlatest.
  - rewrite (check_of_node address n h Hlatest) in Hs. apply report_some in Hs. subst s.
    unfold credited. cbn [balance mining_rewards acc0].
    split; [lia|]. intros Hzero.
    destruct (filter (pays address) _) as [|o l]; [reflexivity|].
    cbn [length] in Hzero. lia.
  - unfold CheckBalance.calculate_balance, CheckBalance.get_latest_height in Hs.
    rewrite Hlatest in Hs. discriminate.
Qed.

Lemma no_balance_without_reward_witness :
  CheckBalance.calculate_balance
    (of_chain [Txs (Some [coinbase miner [reward other 4]])]) miner
  = Some {| balance := 0; mining_rewards := 0 |} /\
  (0 <= 0 /\ (0 = 0 -> 0 = 0)).
Proof.
  split; [vm_compute; reflexivity|].
  apply (no_balance_without_reward
           (of_chain [Txs (Some [coinbase miner [reward other 4]])]) miner
           {| balance := 0; mining_rewards := 0 |}).
  vm_compute. reflexivity.
Defined.

(** X7. The scan reads the heights from 1 to the latest height and nothing
    else: two nodes that report the same latest height and serve the same
    blocks at those heights give the same counters. *)
Theorem only_heights_up_to_latest_matter n1 n2 address h :
  latest_block_height n1 = Some h ->
  latest_block_height n2 = Some h ->
  (forall k, 1 <= k <= h -> block n1 k = block n2 k) ->
  CheckBalance.calculate_balance n1 address = CheckBalance.calculate_balance n2 address /\
  BalanceApi.calculate_balance n1 address = BalanceApi.calculate_balance n2 address.
Proof.
  intros H1 H2 Hsame.
  rewrite (scan_of_node address n1 h H1), (scan_of_node address n2 h H2).
  rewrite (check_of_node address n1 h H1), (check_of_node address n2 h H2).
  unfold served.
  rewrite (map_ext_in (block n1) (block n2)); [split; reflexivity|].
  intros k Hk. apply in_py_range in Hk. apply Hsame. lia.
Qed.

Lemma only_heights_up_to_latest_matter_witness :
  CheckBalance.calculate_balance
    {| latest_block_height := Some 1;
       status_failure := EmptyString;
       block := fun k => if k =? 1 then Txs (Some [coinbase miner [reward miner 5]])
                         else Txs (Some [coinbase miner [reward miner 1000]]) |} miner
  = CheckBalance.calculate_balance (of_chain [Txs (Some [coinbase miner [reward miner 5]])])
                                   miner.
Proof.
  apply (only_heights_up_to_latest_matter
           {| latest_block_height := Some 1;
              status_failure := EmptyString;
              block := fun k => if k =? 1 then Txs (Some [coinbase miner [reward miner 5]])
                                else Txs (Some [coinbase miner [reward miner 1000]]) |}
           (of_chain [Txs (Some [coinbase miner [reward miner 5]])]) miner 1).
  - reflexivity.
  - reflexivity.
  - intros k Hk. assert (k = 1) by lia. subst k. reflexivity.
Defined.

(** X8. A latest height of 0 or below leaves nothing to scan: no block is
    read and both counters are 0. *)
Theorem nothing_to_scan_below_height_one n address h :
  latest_block_height n = Some h ->
  h <= 0 ->
  CheckBalance.calculate_balance n address = Some {| balance := 0; mining_rewards := 0 |} /\
  BalanceApi.calculate_balance n address = Some {| balance := 0; mining_rewards := 0 |}.
Proof.
  intros Hlatest Hlow.
  rewrite (scan_of_node address n h Hlatest), (check_of_node address n h Hlatest).
  unfold served, py_range.
  replace (Z.to_nat (h + 1 - 1)) with 0%nat by lia.
  split; [vm_compute|]; reflexivity.
Qed.

Lemma nothing_to_scan_below_height_one_witness :
  (-3 <= 0) /\
  CheckBalance.calculate_balance
    {| latest_block_height := Some (-3);
       status_failure := EmptyString;
       block := fun _ => Txs (Some [coinbase miner [reward miner 5]]) |} miner
  = Some {| balance := 0; mining_rewards := 0 |}.
Proof.
  split; [lia|].
  apply (nothing_to_scan_below_height_one
           {| latest_block_height := Some (-3);
              status_failure := EmptyString;
              block := fun _ => Txs (Some [coinbase miner [reward miner 5]]) |}
           miner (-3)).
  - reflexivity.
  - lia.
Defined.

(** ** Further properties of the HTTP facade *)

Section Routing.

Import BalanceApi.

Lemma prefix_split p s : String.prefix p s = true -> exists rest, s = (p ++ rest)%string.
Proof.
  revert s. induction p as [|a p IH]; intros s H.
  - exists s. reflexivity.
  - destruct s as [|b s]; cbn in H; [discriminate|].
    destruct (ascii_dec a b) as [->|]; [|discriminate].
    destruct (IH s H) as [rest ->]. now exists rest.
Qed.

Lemma prefix_of_append p rest : String.prefix p (p ++ rest) = true.
Proof.
  induction p as [|a p IH]; cbn.
  - now destruct rest.
  - destruct (ascii_dec a a); [exact IH|congruence].
Qed.

(** [split] returns a first part, and the string either is that part or
    continues with the separator after it. *)
Lemma split_head sep s :
  exists p ps,
    split sep s = p :: ps /\
    (s = p /\ ps = [] \/ exists r, s = (p ++ String sep r)%string /\ ps = split sep r).
Proof.
  induction s as [|c s IH].
  - exists EmptyString, []. split; [reflexivity|]. now left.
  - cbn [split]. destruct (Ascii.eqb c sep) eqn:Hc.
    + apply Ascii.eqb_eq in Hc. subst c.
      exists EmptyString, (split sep s). split; [reflexivity|].
      right. now exists s.
    + destruct IH as (p & ps & Hsplit & Hshape). rewrite Hsplit.
      exists (String c p), ps. split; [reflexivity|].
      destruct Hshape as [[-> ->]|[r [-> ->]]]; [now left|].
      right. now exists r.
Qed.

(** The two outcomes of [do_GET]: the request is answered for the literal
    address [address] when the path is the prefix followed by [balance] as
    a whole component, and with 404 otherwise. *)
Lemma do_GET_cases n path :
  (path = "/api/v1/address/balance"%string \/
   exists tail, path = ("/api/v1/address/balance/" ++ tail)%string) /\
  do_GET n path = handle_balance_request n "address"
  \/
  ~ (path = "/api/v1/address/balance"%string \/
     exists tail, path = ("/api/v1/address/balance/" ++ tail)%string) /\
  do_GET n path = send_404.
Proof.
  unfold do_GET.
  destruct (String.prefix "/api/v1/address/" path) eqn:Hprefix.
  - apply prefix_split in Hprefix as [rest ->].
    destruct (split_head "/" rest) as (p & ps & Hsplit & Hshape).
    cbn [append split Ascii.eqb Bool.eqb]. rewrite Hsplit.
    cbn [length nth_error get_eqb].
    replace (5 <=? Z.of_nat (S (S (S (S (S (length ps))))))) with true
      by (symmetry; apply Z.leb_le; lia).
    cbn [andb]. destruct (String.eqb p "balance") eqn:Hp.
    + left. apply String.eqb_eq in Hp. subst p. split; [|reflexivity].
      destruct Hshape as [[-> _]|[r [-> _]]]; [now left|].
      right. now exists r.
    + right. split; [|reflexivity].
      apply String.eqb_neq in Hp. intros [Heq|[tail Heq]].
      * injection Heq as ->. cbn in Hsplit. congruence.
      * injection Heq as ->. cbn in Hsplit. congruence.
  - right. split; [|reflexivity].
    intros [->|[tail ->]]; cbn in Hprefix; discriminate.
Qed.

End Routing.

(** X9. The facade answers a request for a balance exactly when the path is
    [/api/v1/address/balance] or continues it with [/]: then the status is
    200, or 500 when the status request to the node fails; every other path
    gets 404. The documented path, with an address between [address] and
    [balance], is among those that get 404. *)
Theorem balance_route n path :
  (status (do_GET n path) <> 404 <->
   path = "/api/v1/address/balance"%string \/
   exists tail, path = ("/api/v1/address/balance/" ++ tail)%string) /\
  (status (do_GET n path) = 500 <->
   (path = "/api/v1/address/balance"%string \/
    exists tail, path = ("/api/v1/address/balance/" ++ tail)%string) /\
   latest_block_height n = None) /\
  (status (do_GET n path) = 200 <->
   (path = "/api/v1/address/balance"%string \/
    exists tail, path = ("/api/v1/address/balance/" ++ tail)%string) /\
   latest_block_height n <> None) /\
  status (do_GET n "/api/v1/address/S427a724d41e3a5a03d1f83553134239813272bc2c4b2d50737/balance")
  = 404.
Proof.
  assert (Hrequest : status (handle_balance_request n "address") = 200 /\
                     latest_block_height n <> None
                     \/ status (handle_balance_request n "address") = 500 /\
                        latest_block_height n = None).
  { unfold handle_balance_request, calculate_balance.
    destruct (latest_block_height n); [left|right]; split; cbn; congruence. }
  destruct (do_GET_cases n path) as [[Hpath ->]|[Hpath ->]].
  - destruct Hrequest as [[-> Hup]|[-> Hdown]]; conjuncts; try reflexivity; split;
      intuition congruence.
  - cbn [status send_404]. conjuncts; try reflexivity; split; intros; intuition congruence.
Qed.

(** X10. Every response sent with status 200 is about the literal address
    [address], the fourth component of the path, whatever the path continues
    with: its body carries the counters that [calculate_balance] computes
    for that string. When that balance is too large to convert to a float,
    the status line 200 and its headers are already sent when the division
    raises, and the error page of [send_error] follows them in place of the
    body. *)
Theorem answer_is_for_fourth_component n path :
  status (do_GET n path) = 200 ->
  exists s,
    calculate_balance n "address" = Some s /\
    (float_raises (balance s) = false ->
     content (do_GET n path) = BalanceJson "address" (balance s) (mining_rewards s)) /\
    (float_raises (balance s) = true ->
     content (do_GET n path)
     = ErrorAfterHeaders "Error calculating balance: int too large to convert to float").
Proof.
  intros Hok.
  destruct (do_GET_cases n path) as [[_ Hget]|[_ Hget]]; rewrite Hget in *.
  - unfold handle_balance_request in *.
    destruct (calculate_balance n "address") as [s|]; [|discriminate].
    exists s. cbn [content]. split; [reflexivity|].
    split; intros Hfloat; now rewrite Hfloat.
  - discriminate.
Qed.

Lemma answer_is_for_fourth_component_witness :
  status (do_GET (of_chain [Txs (Some [coinbase "address" [reward "address" (2 ^ 1024)]])])
                 ("/api/v1/address/balance/" ++ miner)) = 200 /\
  content (do_GET (of_chain [Txs (Some [coinbase "address" [reward "address" (2 ^ 1024)]])])
                  ("/api/v1/address/balance/" ++ miner))
  = ErrorAfterHeaders "Error calculating balance: int too large to convert to float".
Proof.
  split; [reflexivity|].
  destruct (answer_is_for_fourth_component
              (of_chain [Txs (Some [coinbase "address" [reward "address" (2 ^ 1024)]])])
              ("/api/v1/address/balance/" ++ miner) eq_refl)
    as (s & Hs & _ & Herror).
  apply Herror. vm_compute in Hs. injection Hs as <-. vm_compute. reflexivity.
Defined.

(** ** Further properties of the selection and of the send *)

Section SelectionMore.

Import ShadowyWASM.

(** No choice of [m] candidates is worth more than the first [m] of the
    list sorted largest first. *)
Lemma chosen_below_largest l :
  descending l ->
  forall chosen rest,
    Permutation (chosen ++ rest) l ->
    total_of chosen <= total_of (firstn (length chosen) l).
Proof.
  unfold descending. induction 1 as [|x l Hsorted IH Hall]; intros chosen rest Hperm.
  - symmetry in Hperm. apply Permutation_nil in Hperm.
    apply app_eq_nil in Hperm as [-> _]. reflexivity.
  - destruct chosen as [|c ch]; [reflexivity|].
    assert (Hx : In x ((c :: ch) ++ rest))
      by (eapply Permutation_in; [symmetry; exact Hperm|now left]).
    apply in_app_or in Hx as [Hx|Hx].
    + apply in_split in Hx as (a & b & Hchosen). rewrite Hchosen in *.
      rewrite <- app_assoc in Hperm. cbn [app] in Hperm.
      symmetry in Hperm. apply Permutation_cons_app_inv in Hperm.
      rewrite app_assoc in Hperm. symmetry in Hperm.
      specialize (IH (a ++ b) rest Hperm).
      rewrite length_app in *. cbn [length]. rewrite Nat.add_succ_r.
      cbn [firstn]. rewrite total_of_cons, total_of_app, total_of_cons.
      rewrite total_of_app in IH. lia.
    + apply in_split in Hx as (a & b & ->).
      rewrite app_assoc in Hperm. symmetry in Hperm.
      apply Permutation_cons_app_inv in Hperm. rewrite <- app_assoc in Hperm.
      cbn [app] in Hperm.
      assert (Hc : value_of c <= value_of x).
      { rewrite Forall_forall in Hall. apply Hall.
        eapply Permutation_in; [symmetry; exact Hperm|now left]. }
      assert (Hrest : Permutation (ch ++ c :: a ++ b) l).
      { symmetry. etransitivity; [exact Hperm|]. apply Permutation_middle. }
      specialize (IH ch (c :: a ++ b) Hrest).
      cbn [length firstn]. rewrite !total_of_cons. lia.
Qed.

(** What the selection yields: a prefix of the sorted list and its total. *)
Lemma select_utxos_prefix utxos amount_satoshis :
  exists rest,
    sort_desc utxos = fst (select_utxos utxos amount_satoshis) ++ rest /\
    (forall p q,
        fst (select_utxos utxos amount_satoshis) = p ++ q -> p <> [] -> q <> [] ->
        total_of p < amount_satoshis + estimated_fee) /\
    (amount_satoshis + estimated_fee <= snd (select_utxos utxos amount_satoshis)
     \/ rest = []).
Proof.
  unfold select_utxos.
  destruct (select_prefix (amount_satoshis + estimated_fee) (sort_desc utxos) [] 0)
    as (taken & rest & Hsplit & Hsel & Hearly & _ & Hend).
  exists rest. rewrite Hsel. cbn [fst snd app]. conjuncts.
  - exact Hsplit.
  - intros p q Hpq Hp Hq. specialize (Hearly p q Hpq Hp Hq). lia.
  - destruct Hend as [Hend|Hend]; [left; lia|now right].
Qed.

(** A selection over candidates that cover the sum needed reaches it. *)
Lemma select_utxos_reaches utxos amount_satoshis :
  amount_satoshis + estimated_fee <= total_of utxos ->
  amount_satoshis + estimated_fee <= snd (select_utxos utxos amount_satoshis).
Proof.
  intros Hcover.
  destruct (select_utxos_prefix utxos amount_satoshis) as (rest & Hsplit & _ & [Hend| ->]);
    [exact Hend|].
  rewrite app_nil_r in Hsplit. rewrite select_utxos_total, <- Hsplit.
  rewrite (total_of_perm _ _ (sort_desc_perm utxos)). exact Hcover.
Qed.

(** A transaction reaches the signer only out of a completed selection, as
    the record assembled from it. *)
Lemma signed_transaction_shape self w to_address (amount : amount_arg) token_id tx :
  In tx (signed_transactions (snd (send_transaction self w to_address amount token_id))) ->
  exists url wal,
    current_client self = Some url /\
    current_wallet self = Some wal /\
    amount_satoshis_of amount token_id + estimated_fee
    <= snd (select_utxos (utxos_of (get_utxos w) (w_address wal))
                         (amount_satoshis_of amount token_id)) /\
    tx = assembled (w_address wal) to_address amount token_id (now w)
           (fst (select_utxos (utxos_of (get_utxos w) (w_address wal))
                              (amount_satoshis_of amount token_id)))
           (snd (select_utxos (utxos_of (get_utxos w) (w_address wal))
                              (amount_satoshis_of amount token_id))).
Proof.
  intros Hin.
  destruct (current_client self) as [url|] eqn:Hclient;
    [|unfold send_transaction in Hin; rewrite Hclient in Hin; contradiction].
  destruct (current_wallet self) as [wal|] eqn:Hwallet;
    [|unfold send_transaction in Hin; rewrite Hclient, Hwallet in Hin; contradiction].
  rewrite (send_transaction_ready _ _ _ _ _ _ _ Hclient Hwallet) in Hin. cbv zeta in Hin.
  exists url, wal. split; [reflexivity|]. split; [reflexivity|].
  destruct (snd _ <? _) eqn:Hshort; [contradiction|].
  apply Z.ltb_ge in Hshort. split; [exact Hshort|].
  destruct (sign w _) as [e|txid sg raw]; [|destruct (broadcast w txid)];
    cbn in Hin; intuition congruence.
Qed.

End SelectionMore.

Import ShadowyWASM.

(** X11. The selection uses as few inputs as any choice can: no non-empty
    choice among the candidates that covers amount + fee has fewer entries
    than what is selected. *)
Theorem selection_uses_fewest_inputs utxos amount_satoshis chosen rest :
  Permutation (chosen ++ rest) utxos ->
  chosen <> [] ->
  amount_satoshis + estimated_fee <= total_of chosen ->
  (length (fst (select_utxos utxos amount_satoshis)) <= length chosen)%nat.
Proof.
  intros Hperm Hchosen Hcovers.
  destruct (select_utxos_prefix utxos amount_satoshis) as (left_over & Hsplit & Hearly & _).
  set (taken := fst (select_utxos utxos amount_satoshis)) in *.
  destruct (Nat.le_gt_cases (length taken) (length chosen)) as [Hle|Hfewer]; [exact Hle|].
  exfalso.
  assert (Hlen : (0 < length chosen)%nat) by (destruct chosen; [congruence|cbn; lia]).
  assert (Hshort : total_of (firstn (length chosen) taken)
                   < amount_satoshis + estimated_fee).
  { apply (Hearly (firstn (length chosen) taken) (skipn (length chosen) taken)).
    - symmetry. apply firstn_skipn.
    - intros Hnil. apply (f_equal (@length utxo)) in Hnil.
      rewrite length_firstn in Hnil. cbn in Hnil. lia.
    - intros Hnil. apply (f_equal (@length utxo)) in Hnil.
      rewrite length_skipn in Hnil. cbn in Hnil. lia. }
  assert (Hbound : total_of chosen <= total_of (firstn (length chosen) (sort_desc utxos))).
  { apply (chosen_below_largest _ (sort_desc_sorted utxos) chosen rest).
    etransitivity; [exact Hperm|]. symmetry. apply sort_desc_perm. }
  rewrite Hsplit, firstn_app in Hbound.
  replace (length chosen - length taken)%nat with 0%nat in Hbound by lia.
  cbn [firstn] in Hbound. rewrite app_nil_r in Hbound. lia.
Qed.

Lemma selection_uses_fewest_inputs_witness :
  1100000 + estimated_fee <= total_of [coin 500000; coin 1000000] /\
  (length (fst (select_utxos [coin 500000; coin 1000000; coin 300000] 1100000)) <= 2)%nat.
Proof.
  split; [vm_compute; discriminate|].
  apply (selection_uses_fewest_inputs [coin 500000; coin 1000000; coin 300000] 1100000
           [coin 500000; coin 1000000] [coin 300000]).
  - apply Permutation_refl.
  - discriminate.
  - vm_compute. discriminate.
Defined.

(** X12. Every transaction handed to the signer balances: the values of the
    selected candidates equal the values of its outputs plus the fee of
    100000. *)
Theorem inputs_pay_outputs_and_fee self w to_address (amount : amount_arg) token_id tx :
  In tx (signed_transactions (snd (send_transaction self w to_address amount token_id))) ->
  exists wal selected,
    current_wallet self = Some wal /\
    selected = fst (select_utxos (utxos_of (get_utxos w) (w_address wal))
                                 (amount_satoshis_of amount token_id)) /\
    tx_inputs tx = map input_of selected /\
    total_of selected = sumZ (map o_value (tx_outputs tx)) + 100000.
Proof.
  intros Hin.
  destruct (signed_transaction_shape _ _ _ _ _ _ Hin) as (url & wal & _ & Hwal & Hfunded & ->).
  exists wal. eexists. split; [exact Hwal|]. split; [reflexivity|]. split; [reflexivity|].
  rewrite select_utxos_total in *.
  unfold assembled, make_outputs, change_outputs. cbn [tx_outputs].
  unfold estimated_fee in *.
  match goal with |- context [?c >? 0] => destruct (c >? 0) eqn:Hchange end;
    cbn [app map sumZ fold_right o_value].
  - lia.
  - rewrite Z.gtb_ltb in Hchange. apply Z.ltb_ge in Hchange. lia.
Qed.

Lemma inputs_pay_outputs_and_fee_witness :
  In (assembled miner other {| times_1e8 := 200000; truncated := 0 |} None
                "2025-01-01T00:00:00Z" (firstn 1 (_create_mock_utxos miner)) 1000000000)
     (signed_transactions
        (snd (send_transaction ready (bridge_serving (AnArray [coin 500000; coin 200000]))
                other {| times_1e8 := 200000; truncated := 0 |} None))) /\
  total_of (firstn 1 (_create_mock_utxos miner))
  = sumZ (map o_value
            (tx_outputs (assembled miner other {| times_1e8 := 200000; truncated := 0 |} None
                                   "2025-01-01T00:00:00Z"
                                   (firstn 1 (_create_mock_utxos miner)) 1000000000)))
    + 100000.
Proof.
  split; [left; reflexivity|].
  destruct (inputs_pay_outputs_and_fee ready
              (bridge_serving (AnArray [coin 500000; coin 200000])) other
              {| times_1e8 := 200000; truncated := 0 |} None
              (assembled miner other {| times_1e8 := 200000; truncated := 0 |} None
                         "2025-01-01T00:00:00Z" (firstn 1 (_create_mock_utxos miner))
                         1000000000)
              (or_introl eq_refl))
    as (wal & selected & Hwal & Hselected & _ & Hsum).
  injection Hwal as <-. rewrite Hselected in Hsum. exact Hsum.
Defined.

(** X13. When the candidates that [get_address_utxos] returns cover amount +
    fee, the selection completes whatever their order and sign, and exactly
    one transaction is handed to the signer. *)
Theorem covered_send_reaches_signer self w to_address (amount : amount_arg) token_id wal r :
  current_wallet self = Some wal ->
  get_address_utxos self w (w_address wal) = Utxos r ->
  amount_satoshis_of amount token_id + estimated_fee <= total_of (r_utxos r) ->
  exists tx,
    signed_transactions (snd (send_transaction self w to_address amount token_id)) = [tx] /\
    tx_inputs tx
    = map input_of (fst (select_utxos (r_utxos r) (amount_satoshis_of amount token_id))).
Proof.
  intros Hwallet Hutxos Hcover.
  unfold get_address_utxos in Hutxos.
  destruct (current_client self) as [url|] eqn:Hclient; [|discriminate].
  injection Hutxos as <-. cbn [r_utxos] in *.
  rewrite (send_transaction_ready _ _ _ _ _ _ _ Hclient Hwallet). cbv zeta.
  apply select_utxos_reaches in Hcover. apply Z.ltb_ge in Hcover. rewrite Hcover.
  eexists. split.
  - destruct (sign w _) as [e|txid sg raw]; [|destruct (broadcast w txid)]; reflexivity.
  - reflexivity.
Qed.

Lemma covered_send_reaches_signer_witness :
  amount_satoshis_of {| times_1e8 := 1200000000; truncated := 12 |} None + estimated_fee
  <= total_of (_create_mock_utxos miner) /\
  exists tx,
    signed_transactions
      (snd (send_transaction ready (bridge_serving (AnArray [coin 200000; coin 500000]))
              other {| times_1e8 := 1200000000; truncated := 12 |} None)) = [tx] /\
    tx_inputs tx
    = map input_of (fst (select_utxos (_create_mock_utxos miner) 1200000000)).
Proof.
  split; [vm_compute; discriminate|].
  apply (covered_send_reaches_signer ready
           (bridge_serving (AnArray [coin 200000; coin 500000])) other
           {| times_1e8 := 1200000000; truncated := 12 |} None
           {| w_name := "main"; w_address := miner |}
           {| r_address := miner; r_utxos := _create_mock_utxos miner; r_count := 2;
              r_total_value := 1500000000; r_source := "WASM-PQC" |}).
  - reflexivity.
  - reflexivity.
  - vm_compute. discriminate.
Defined.

(** X14. [send_transaction] never reports a failed candidate lookup nor the
    absence of spendable candidates: [get_address_utxos] is called with a
    client configured, where it always answers with at least one candidate,
    so both branches of [send_transaction] are dead. *)
Theorem lookup_errors_never_surface self w to_address amount token_id :
  fst (send_transaction self w to_address amount token_id) <> Failed NoSpendableUtxos /\
  (forall e,
      fst (send_transaction self w to_address amount token_id)
      <> Failed (UtxoLookupFailed e)) /\
  (forall address r,
      get_address_utxos self w address = Utxos r -> r_utxos r <> []).
Proof.
  assert (Hfunded : forall from_address amount_satoshis e,
             fst (funded_send w from_address to_address amount_satoshis token_id)
             <> Failed e \/
             (forall e', e <> UtxoLookupFailed e') /\ e <> NoSpendableUtxos).
  { intros from_address amount_satoshis e0. unfold funded_send. cbv zeta.
    destruct (snd _ <? _).
    - destruct e0; try (left; discriminate). right. split; [discriminate|discriminate].
    - destruct (sign w _) as [e|txid sg raw]; [|destruct (broadcast w txid)];
        try (left; discriminate).
      destruct e0; try (left; discriminate). right. split; discriminate. }
  assert (Hsend : forall e,
             fst (send_transaction self w to_address amount token_id) = Failed e ->
             (forall e', e <> UtxoLookupFailed e') /\ e <> NoSpendableUtxos).
  { intros e0.
    destruct (current_client self) as [url|] eqn:Hclient;
      [|unfold send_transaction; rewrite Hclient; cbn; intros [= <-]; split; discriminate].
    destruct (current_wallet self) as [wal|] eqn:Hwallet;
      [|unfold send_transaction; rewrite Hclient, Hwallet; cbn; intros [= <-];
        split; discriminate].
    rewrite (send_transaction_funded _ _ _ _ _ _ _ Hclient Hwallet).
    destruct (satoshis_of amount token_id) as [amount_satoshis|text].
    - intros He. destruct (Hfunded (w_address wal) amount_satoshis e0) as [Hno|Hok];
        [contradiction|exact Hok].
    - cbn. intros [= <-]. split; discriminate. }
  conjuncts.
  - intros H. apply Hsend in H as [_ H]. congruence.
  - intros e H. apply Hsend in H as [H _]. now apply (H e).
  - intros address r. unfold get_address_utxos.
    destruct (current_client self); [|discriminate].
    intros Hr. injection Hr as <-. cbn [r_utxos]. apply utxos_of_not_empty.
Qed.


(** X16. A token operation is attached exactly for a send with a token id:
    a native send carries none and pays the amount in smallest units
    ([int(amount * 100000000)]); a token send carries one transfer operation
    from the sender to the recipient for [int(amount)], and its recipient
    output is worth [int(amount)] smallest units, unscaled. *)
Theorem token_operation_only_with_token_id self w to_address (amount : amount_arg)
        token_id tx :
  In tx (signed_transactions (snd (send_transaction self w to_address amount token_id))) ->
  exists wal,
    current_wallet self = Some wal /\
    (no_token token_id = true ->
     tx_token_ops tx = None /\
     hd_error (tx_outputs tx)
     = Some {| o_value := times_1e8 amount; o_script_pubkey := script_for to_address;
               o_address := to_address |}) /\
    (forall id,
        token_id = Some id -> id <> EmptyString ->
        tx_token_ops tx
        = Some [ {| op_type := 1; op_token_id := id; op_from := w_address wal;
                    op_to := to_address; op_amount := truncated amount |} ] /\
        hd_error (tx_outputs tx)
        = Some {| o_value := truncated amount; o_script_pubkey := script_for to_address;
                  o_address := to_address |}).
Proof.
  intros Hin.
  destruct (signed_transaction_shape _ _ _ _ _ _ Hin) as (url & wal & _ & Hwal & _ & ->).
  exists wal. split; [exact Hwal|].
  unfold assembled, make_outputs, make_token_ops, amount_satoshis_of, no_token.
  cbn [tx_token_ops tx_outputs app hd_error]. split.
  - intros Hnone. rewrite Hnone.
    destruct token_id as [id|]; [|split; reflexivity].
    rewrite Hnone. split; reflexivity.
  - intros id -> Hid. apply String.eqb_neq in Hid. rewrite Hid. split; reflexivity.
Qed.

Lemma token_operation_only_with_token_id_witness :
  In (assembled miner other {| times_1e8 := 300000000; truncated := 3 |} (Some "gold"%string)
                "2025-01-01T00:00:00Z" (firstn 1 (_create_mock_utxos miner)) 1000000000)
     (signed_transactions
        (snd (send_transaction ready (bridge_serving (AnArray [coin 500000; coin 200000]))
                other {| times_1e8 := 300000000; truncated := 3 |} (Some "gold"%string)))) /\
  tx_token_ops (assembled miner other {| times_1e8 := 300000000; truncated := 3 |}
                          (Some "gold"%string) "2025-01-01T00:00:00Z"
                          (firstn 1 (_create_mock_utxos miner)) 1000000000)
  = Some [ {| op_type := 1; op_token_id := "gold"; op_from := miner; op_to := other;
              op_amount := 3 |} ].
Proof.
  split; [left; reflexivity|].
  destruct (token_operation_only_with_token_id ready
              (bridge_serving (AnArray [coin 500000; coin 200000])) other
              {| times_1e8 := 300000000; truncated := 3 |} (Some "gold"%string)
              (assembled miner other {| times_1e8 := 300000000; truncated := 3 |}
                         (Some "gold"%string) "2025-01-01T00:00:00Z"
                         (firstn 1 (_create_mock_utxos miner)) 1000000000)
              (or_introl eq_refl))
    as (wal & Hwal & _ & Htoken).
  injection Hwal as <-.
  exact (proj1 (Htoken "gold"%string eq_refl ltac:(discriminate))).
Defined.

(** X17. Candidates that the bridge does return are never used: line 524
    tests the answer against the name [list], which the command
    [wallet list] of line 809 has rebound, so the test raises and the
    handler of line 546 substitutes the mock pair. With a client
    configured, [get_address_utxos] returns the mock pair, count 2 and
    total 1500000000, for every answer of the bridge, and a send does not
    depend on that answer. *)
Theorem real_candidates_are_replaced self w address answer :
  current_client self <> None ->
  get_utxos w = answer ->
  get_address_utxos self w address
  = Utxos {| r_address := address; r_utxos := _create_mock_utxos address; r_count := 2;
             r_total_value := 1500000000; r_source := "WASM-PQC" |} /\
  forall other_answer to_address amount token_id,
    send_transaction self {| get_utxos := other_answer; sign := sign w;
                             broadcast := broadcast w; now := now w |}
                     to_address amount token_id
    = send_transaction self w to_address amount token_id.
Proof.
  intros Hclient Hanswer. split.
  - unfold get_address_utxos.
    destruct (current_client self); [|congruence].
    now rewrite utxos_of_mock.
  - intros other_answer to_address amount token_id.
    destruct (current_client self) as [url|] eqn:Hurl;
      [|unfold send_transaction; now rewrite Hurl].
    destruct (current_wallet self) as [wal|] eqn:Hwallet;
      [|unfold send_transaction; now rewrite Hurl, Hwallet].
    rewrite !(send_transaction_funded _ _ _ _ _ _ _ Hurl Hwallet).
    unfold funded_send. cbn [get_utxos sign broadcast now]. now rewrite !utxos_of_mock.
Qed.

Lemma real_candidates_are_replaced_witness :
  get_address_utxos ready (bridge_serving (ADict (AList [coin 7; coin 9]))) miner
  = Utxos {| r_address := miner; r_utxos := _create_mock_utxos miner; r_count := 2;
             r_total_value := 1500000000; r_source := "WASM-PQC" |}.
Proof.
  apply (real_candidates_are_replaced ready
           (bridge_serving (ADict (AList [coin 7; coin 9]))) miner
           (ADict (AList [coin 7; coin 9]))).
  - discriminate.
  - reflexivity.
Defined.

(** ** The session: client, wallet and the send command *)

(** X18. [create_client] records the client before it asks the bridge, and
    keeps it when the bridge refuses: whatever the answers, the client is
    configured afterwards, the wallet is untouched, a later candidate lookup
    does not answer that no client is configured, and the connection test is
    run only after the bridge accepted the client. *)
Theorem client_is_configured_even_when_refused self b url :
  let '(result, self', calls) := Session.create_client self b url in
  current_client self' = Some url /\
  current_wallet self' = current_wallet self /\
  (forall w address, exists r, get_address_utxos self' w address = Utxos r) /\
  (result = Session.ClientReady <->
   (exists u, Session.on_create_client b url = Session.BridgeOk u) /\
   (exists u, Session.on_test_connection b = Session.BridgeOk u)) /\
  (In Session.EpTestConnection calls <->
   exists u, Session.on_create_client b url = Session.BridgeOk u).
Proof.
  unfold Session.create_client.
  destruct (Session.on_create_client b url) as [e|u] eqn:Hcreate.
  - conjuncts; try reflexivity.
    + intros w address. unfold get_address_utxos. cbn. eauto.
    + split; [discriminate|]. intros [[u Hu] _]. discriminate.
    + split; [cbn; intuition discriminate|]. intros [u Hu]. discriminate.
  - destruct (Session.on_test_connection b) as [e|u'] eqn:Htest.
    + conjuncts; try reflexivity.
      * intros w address. unfold get_address_utxos. cbn. eauto.
      * split; [discriminate|]. intros [_ [u0 Hu]]. discriminate.
      * split; [eauto|]. intros _. cbn. auto.
    + conjuncts; try reflexivity.
      * intros w address. unfold get_address_utxos. cbn. eauto.
      * split; [eauto|reflexivity].
      * split; [eauto|]. intros _. cbn. auto.
Qed.

(** X19. A wallet that loads becomes the current one, so that
    [get_wallet_address] answers with its name and address and signatures
    are made in its name; a wallet that fails to load leaves the session as
    it was, with the wallet loaded before, if any, still current. *)
Theorem loaded_wallet_is_current self b name :
  match Session.load_wallet self b name with
  | (Session.Loaded wallet_name address _ _, self') =>
      Session.get_wallet_address self' = Session.WalletAddress wallet_name address /\
      current_client self' = current_client self /\
      (forall w tx txid signature raw_tx,
          sign w tx = Signed txid signature raw_tx ->
          sign_transaction self' w tx
          = (SignedTx txid signature raw_tx address, [CallSign tx]))
  | (Session.LoadFailed _, self') =>
      self' = self /\
      Session.get_wallet_address self' = Session.get_wallet_address self
  end.
Proof.
  unfold Session.load_wallet.
  destruct (Session.on_load_wallet b name) as [e|result].
  - split; reflexivity.
  - conjuncts; try reflexivity.
    intros w tx txid signature raw_tx Hsign.
    unfold sign_transaction. cbn [current_wallet w_address]. now rewrite Hsign.
Qed.



(** ** reset_sync *)

Section ResetLoop.

Import ResetSync.

Variable node : server.
Variable node_url : string.

Ltac flatten_apps := repeat rewrite <- app_assoc; cbn [app].

(** The loop over the reset endpoints either is refused by all of them, or
    stops at the first accepted reply. *)
Lemma try_reset_outcome endpoints sent results :
  (exists exchanges records,
      refusals node_url endpoints exchanges records /\
      try_reset node node_url endpoints sent results
      = (None, sent ++ exchanges, results ++ records))
  \/
  (exists tried endpoint rest exchanges records used code text last,
      endpoints = tried ++ endpoint :: rest /\
      refusals node_url tried exchanges records /\
      accepted code = true /\
      (used = POST /\ last = [(post node_url endpoint, Response code text)]
       \/ used = GET /\
          exists code0 text0,
            accepted code0 = false /\
            last = [(post node_url endpoint, Response code0 text0);
                    (get node_url endpoint, Response code text)]) /\
      try_reset node node_url endpoints sent results
      = (Some (ResetDone endpoint used code (excerpt text)),
         sent ++ exchanges ++ last, results ++ records)).
Proof.
  revert sent results. induction endpoints as [|e es IH]; intros sent results.
  - left. exists [], []. split; [constructor|]. cbn. now rewrite !app_nil_r.
  - cbn [try_reset].
    destruct (ask node sent _) as [code text|] eqn:Hpost.
    + destruct (accepted code) eqn:Hcode.
      * right. exists [], e, es, [], [], POST, code, text. eexists.
        conjuncts; [reflexivity|constructor|exact Hcode|left; split; reflexivity|].
        cbn [app]. now rewrite app_nil_r.
      * destruct (ask node (sent ++ _) _) as [code' text'|] eqn:Hget.
        -- destruct (accepted code') eqn:Hcode'.
           ++ right. exists [], e, es, [], [], GET, code', text'. eexists.
              conjuncts; [reflexivity|constructor|exact Hcode'| |].
              ** right. split; [reflexivity|]. exists code, text. split; [exact Hcode|reflexivity].
              ** cbn [app]. rewrite app_nil_r. now flatten_apps.
           ++ destruct (IH ((sent ++ [(post node_url e, Response code text)])
                              ++ [(get node_url e, Response code' text')])
                           (results ++ [Refused e code']))
                as [(ex & rec & Href & Hrun)
                   |(tried & e' & rest & ex & rec & used & c & t & last
                     & Hsplit & Href & Hacc & Hlast & Hrun)].
              ** left. eexists. eexists. split; [apply (both_refused _ e es code text code' text' ex rec Hcode Hcode' Href)|].
                 unfold post, get in *. rewrite Hrun. now flatten_apps.
              ** right. exists (e :: tried), e', rest. eexists. eexists.
                 exists used, c, t, last.
                 conjuncts; [now rewrite Hsplit
                            |apply (both_refused _ e tried code text code' text' ex rec Hcode Hcode' Href)
                            |exact Hacc|exact Hlast|].
                 unfold post, get in *. rewrite Hrun. now flatten_apps.
        -- destruct (IH ((sent ++ [(post node_url e, Response code text)])
                           ++ [(get node_url e, RequestException)])
                        (results ++ [Unreachable e]))
             as [(ex & rec & Href & Hrun)
                |(tried & e' & rest & ex & rec & used & c & t & last
                  & Hsplit & Href & Hacc & Hlast & Hrun)].
           ++ left. eexists. eexists. split; [apply (get_raised _ e es code text ex rec Hcode Href)|].
              unfold post, get in *. rewrite Hrun. now flatten_apps.
           ++ right. exists (e :: tried), e', rest. eexists. eexists.
              exists used, c, t, last.
              conjuncts; [now rewrite Hsplit
                         |apply (get_raised _ e tried code text ex rec Hcode Href)
                         |exact Hacc|exact Hlast|].
              unfold post, get in *. rewrite Hrun. now flatten_apps.
    + destruct (IH (sent ++ [(post node_url e, RequestException)])
                   (results ++ [Unreachable e]))
        as [(ex & rec & Href & Hrun)
           |(tried & e' & rest & ex & rec & used & c & t & last
             & Hsplit & Href & Hacc & Hlast & Hrun)].
      * left. eexists. eexists. split; [apply (post_raised _ e es ex rec Href)|].
        unfold post in *. rewrite Hrun. now flatten_apps.
      * right. exists (e :: tried), e', rest. eexists. eexists.
        exists used, c, t, last.
        conjuncts; [now rewrite Hsplit
                   |apply (post_raised _ e tried ex rec Href)
                   |exact Hacc|exact Hlast|].
        unfold post in *. rewrite Hrun. now flatten_apps.
Qed.

(** The connectivity checks ask every endpoint once, in order, and keep a
    record of each one that answered. *)
Lemma check_basic_outcome endpoints sent results :
  exists replies,
    length replies = length endpoints /\
    check_basic node node_url endpoints sent results
    = (sent ++ combine (map (get node_url) endpoints) replies,
       results ++ flat_map (fun er => connectivity_of (fst er) (snd er))
                           (combine endpoints replies)).
Proof.
  revert sent results. induction endpoints as [|e es IH]; intros sent results.
  - exists []. split; [reflexivity|]. cbn. now rewrite !app_nil_r.
  - cbn [check_basic].
    destruct (ask node sent _) as [code text|] eqn:Hget.
    + destruct (IH (sent ++ [(get node_url e, Response code text)])
                   (results ++ [Connectivity e code (code =? 200)]))
        as (replies & Hlen & Hrun).
      exists (Response code text :: replies). split; [cbn; now rewrite Hlen|].
      unfold get in *. rewrite Hrun. cbn [map combine flat_map fst snd connectivity_of].
      now flatten_apps.
    + destruct (IH (sent ++ [(get node_url e, RequestException)]) results)
        as (replies & Hlen & Hrun).
      exists (RequestException :: replies). split; [cbn; now rewrite Hlen|].
      unfold get in *. rewrite Hrun. cbn [map combine flat_map fst snd connectivity_of app].
      now flatten_apps.
Qed.

Lemma refusals_records endpoints exchanges records :
  refusals node_url endpoints exchanges records ->
  length records = length endpoints /\
  (length endpoints <= length exchanges <= 2 * length endpoints)%nat.
Proof.
  induction 1; cbn [length]; lia.
Qed.

End ResetLoop.

(** X21. A successful [reset_sync] names the first endpoint of the list
    that accepted a request: every endpoint before it was refused, the last
    exchange of the log is the accepted one, by POST, or by GET after the
    POST of that endpoint was answered with another status, and nothing is
    asked after it. The URL is the argument if it is not empty, else the URL
    of the configured client. *)
Theorem reset_stops_at_first_accepted_endpoint
        self node node_url endpoint used code response sent :
  ResetSync.reset_sync self node node_url
  = (ResetSync.ResetDone endpoint used code response, sent) ->
  exists url tried rest exchanges records text,
    ResetSync.target self node_url = Some url /\
    ResetSync.reset_endpoints = tried ++ endpoint :: rest /\
    ResetSync.refusals url tried exchanges records /\
    ResetSync.accepted code = true /\
    response = ResetSync.excerpt text /\
    (used = ResetSync.POST /\
     sent = exchanges ++ [(ResetSync.post url endpoint, ResetSync.Response code text)]
     \/ used = ResetSync.GET /\
        exists code0 text0,
          ResetSync.accepted code0 = false /\
          sent = exchanges ++ [(ResetSync.post url endpoint, ResetSync.Response code0 text0);
                               (ResetSync.get url endpoint, ResetSync.Response code text)]).
Proof.
  unfold ResetSync.reset_sync. intros Hrun.
  destruct (ResetSync.target self node_url) as [url|]; [|discriminate].
  destruct (try_reset_outcome node url ResetSync.reset_endpoints [] [])
    as [(ex & rec & Href & Hloop)
       |(tried & e & rest & ex & rec & m & c & t & last
         & Hsplit & Href & Hacc & Hlast & Hloop)];
    rewrite Hloop in Hrun.
  - destruct (ResetSync.check_basic _ _ _ _ _). discriminate.
  - injection Hrun as <- <- <- <- <-. cbn [app].
    exists url, tried, rest, ex, rec, t.
    conjuncts; [reflexivity|exact Hsplit|exact Href|exact Hacc|reflexivity|].
    destruct Hlast as [[-> ->]|[-> (c0 & t0 & Hc0 & ->)]]; [left|right]; eauto.
Qed.

Lemma reset_stops_at_first_accepted_endpoint_witness :
  ResetSync.reset_sync ready Scenario.picky_node (Some "http://node"%string)
  = (ResetSync.ResetDone "/api/v1/sync/reset" ResetSync.GET 202 (Some "restarting"%string),
     [ (ResetSync.post "http://node" "/api/v1/reset", ResetSync.Response 404 EmptyString);
       (ResetSync.get "http://node" "/api/v1/reset", ResetSync.Response 404 EmptyString);
       (ResetSync.post "http://node" "/api/v1/sync/reset",
        ResetSync.Response 404 EmptyString);
       (ResetSync.get "http://node" "/api/v1/sync/reset",
        ResetSync.Response 202 "restarting") ]) /\
  ResetSync.accepted 202 = true.
Proof.
  split; [reflexivity|].
  destruct (reset_stops_at_first_accepted_endpoint ready Scenario.picky_node
              (Some "http://node"%string) "/api/v1/sync/reset" ResetSync.GET 202
              (Some "restarting"%string) _ eq_refl)
    as (url & tried & rest & exchanges & records & text & _ & _ & _ & Haccepted & _).
  exact Haccepted.
Defined.

(** X22. A failed [reset_sync] has tried every reset endpoint, in the order
    of the list, and each was refused; it then asked the three connectivity
    endpoints once each. Its list of attempts holds one record for each of
    the 13 reset endpoints, followed by one for each connectivity check that
    was answered: between 13 and 16 records, after at most 29 requests. *)
Theorem failed_reset_tried_every_endpoint self node node_url url attempted sent :
  ResetSync.reset_sync self node node_url = (ResetSync.ResetFailed url attempted, sent) ->
  ResetSync.target self node_url = Some url /\
  (13 <= length attempted <= 16)%nat /\
  (length sent <= 29)%nat /\
  exists exchanges records replies,
    ResetSync.refusals url ResetSync.reset_endpoints exchanges records /\
    length replies = 3%nat /\
    sent = exchanges
           ++ combine (map (ResetSync.get url) ResetSync.basic_endpoints) replies /\
    attempted = records
                ++ flat_map (fun er => ResetSync.connectivity_of (fst er) (snd er))
                            (combine ResetSync.basic_endpoints replies).
Proof.
  unfold ResetSync.reset_sync. intros Hrun.
  destruct (ResetSync.target self node_url) as [url'|]; [|discriminate].
  destruct (try_reset_outcome node url' ResetSync.reset_endpoints [] [])
    as [(ex & rec & Href & Hloop)
       |(tried & e & rest & ex & rec & m & c & t & last
         & Hsplit & Href & Hacc & Hlast & Hloop)];
    rewrite Hloop in Hrun; [|discriminate].
  destruct (check_basic_outcome node url' ResetSync.basic_endpoints ([] ++ ex) ([] ++ rec))
    as (replies & Hlen & Hbasic).
  rewrite Hbasic in Hrun. injection Hrun as <- <- <-.
  change ([] ++ ex) with ex. change ([] ++ rec) with rec.
  destruct (refusals_records _ _ _ _ Href) as [Hrecords Hexchanges].
  change (length ResetSync.reset_endpoints) with 13%nat in *.
  change (length ResetSync.basic_endpoints) with 3%nat in Hlen.
  split; [reflexivity|].
  destruct replies as [|r1 [|r2 [|r3 [|r4 l]]]]; try discriminate Hlen.
  split; [|split].
  - rewrite length_app, Hrecords. destruct r1, r2, r3; cbn; lia.
  - rewrite length_app. cbn. lia.
  - exists ex, rec, [r1; r2; r3]. conjuncts; [exact Href|reflexivity|reflexivity|reflexivity].
Qed.

Lemma failed_reset_tried_every_endpoint_witness :
  fst (ResetSync.reset_sync ready Scenario.dead_node None)
  = ResetSync.ResetFailed "http://127.0.0.1:8080"
      (map ResetSync.Unreachable ResetSync.reset_endpoints) /\
  (13 <= length (map ResetSync.Unreachable ResetSync.reset_endpoints) <= 16)%nat.
Proof.
  split; [reflexivity|].
  exact (proj1 (proj2 (failed_reset_tried_every_endpoint ready Scenario.dead_node None
                         "http://127.0.0.1:8080"
                         (map ResetSync.Unreachable ResetSync.reset_endpoints)
                         _ eq_refl))).
Defined.

Section ResetOrder.

Import ResetSync.

Lemma get_follows_post_after_post url e rp l :
  get_follows_post l -> get_follows_post ((post url e, rp) :: l).
Proof.
  intros Hl before rq rp' after Hsplit Hget.
  destruct before as [|x before]; cbn [app] in Hsplit.
  - injection Hsplit as <- _ _. discriminate.
  - injection Hsplit as <- Hrest.
    destruct (Hl _ _ _ _ Hrest Hget) as (earlier & c & t & -> & Hc).
    exists ((post url e, rp) :: earlier), c, t. split; [reflexivity|exact Hc].
Qed.

Lemma get_follows_post_after_pair url e code text rp l :
  accepted code = false ->
  get_follows_post l ->
  get_follows_post ((post url e, Response code text) :: (get url e, rp) :: l).
Proof.
  intros Hcode Hl before rq rp' after Hsplit Hget.
  destruct before as [|x [|y before]]; cbn [app] in Hsplit.
  - injection Hsplit as <- _ _. discriminate.
  - injection Hsplit as <- <- _ _. exists [], code, text. split; [reflexivity|exact Hcode].
  - injection Hsplit as <- <- Hrest.
    destruct (Hl _ _ _ _ Hrest Hget) as (earlier & c & t & -> & Hc).
    eexists (_ :: _ :: earlier), c, t. split; [reflexivity|exact Hc].
Qed.

Lemma get_follows_post_nil : get_follows_post [].
Proof.
  intros before rq rp after Hsplit. destruct before; discriminate.
Qed.

Lemma refusals_get_follows_post url endpoints exchanges records last :
  refusals url endpoints exchanges records ->
  get_follows_post last ->
  get_follows_post (exchanges ++ last).
Proof.
  intros Href Hlast. induction Href; cbn [app].
  - exact Hlast.
  - now apply get_follows_post_after_post.
  - now apply get_follows_post_after_pair.
  - now apply get_follows_post_after_pair.
Qed.

End ResetOrder.

(** X23. In the loop over the reset endpoints, a GET is sent only right
    after the POST of the same URL was answered with a status that is not
    accepted: an endpoint whose POST raises is not asked again, and no
    endpoint is asked by GET first. *)
Theorem get_only_after_answered_post node url endpoints :
  ResetSync.get_follows_post
    (snd (fst (ResetSync.try_reset node url endpoints [] []))).
Proof.
  destruct (try_reset_outcome node url endpoints [] [])
    as [(ex & rec & Href & Hloop)
       |(tried & e & rest & ex & rec & m & c & t & last
         & Hsplit & Href & Hacc & Hlast & Hloop)];
    rewrite Hloop; cbn [fst snd app].
  - rewrite <- (app_nil_r ex).
    apply (refusals_get_follows_post _ _ _ _ _ Href). apply get_follows_post_nil.
  - apply (refusals_get_follows_post _ _ _ _ _ Href).
    destruct Hlast as [[_ ->]|[_ (c0 & t0 & Hc0 & ->)]].
    + apply get_follows_post_after_post, get_follows_post_nil.
    + apply get_follows_post_after_pair; [exact Hc0|apply get_follows_post_nil].
Qed.

(** X24. The command [validate] never reports an address as invalid: the
    result of [validate_address] for an invalid address carries the key
    [error], on which the command exits with status 1 before it looks at
    [valid]. It reports a valid address exactly when the engine started, the
    client was accepted and the address has 51 characters and starts with
    S. *)
Theorem validate_command_never_says_invalid loaded b address node :
  Session.validate loaded b address node <> Session.SaysInvalid /\
  (Session.validate loaded b address node = Session.SaysValid <->
   loaded = true /\
   fst (fst (Session.create_client Session.init b node)) = Session.ClientReady /\
   length address = 51%nat /\
   exists rest, address = code_S :: rest).
Proof.
  unfold Session.validate.
  destruct loaded; cbn [negb];
    [|split; [discriminate|split; [discriminate|intros [H _]; discriminate]]].
  destruct (Session.create_client Session.init b node) as [[result self] calls].
  cbn [fst].
  destruct result as [|e];
    [|split; [discriminate|split; [discriminate|intros (_ & H & _); discriminate]]].
  unfold validate_address, startswith_S.
  destruct (Z.of_nat (length address) =? 51) eqn:Hlen; cbn [andb].
  - apply Z.eqb_eq in Hlen. destruct address as [|c rest].
    + split; [discriminate|]. split; [discriminate|]. intros (_ & _ & _ & rest & H). discriminate.
    + destruct (N.eqb c code_S) eqn:Hc; cbn [valid].
      * apply N.eqb_eq in Hc. subst c. split; [discriminate|].
        split; [intros _|reflexivity]. conjuncts; try reflexivity; [lia|now exists rest].
      * split; [discriminate|]. split; [discriminate|].
        intros (_ & _ & _ & rest' & H). injection H as -> _.
        rewrite N.eqb_refl in Hc. discriminate.
  - split; [discriminate|]. split; [discriminate|].
    intros (_ & _ & Hlength & _). rewrite Hlength in Hlen. discriminate.
Qed.
